(** * FireO [Model]: change tracking, serialisation, key composition

    A shallow embedding of [src/fireo/models/model.py].  The class [Model]
    is embedded as functions over an explicit instance state; methods that
    raise return a [result]; the collaborators that live outside the file
    (field descriptors, the metadata registry, [fireo.utils], the manager)
    are taken as data or as section variables. *)

From Stdlib Require Import Strings.Ascii Strings.String.
From stdpp Require Import gmap strings list fin_maps.

Open Scope string_scope.
Open Scope list_scope.
Set Warnings "-register-all,-clear-no-such-hyp".

(** ** Python values *)

(** The values an attribute, a document entry or an argument can hold.
    [VObject] stands for any other object (a nested model instance, a
    transaction, ...), identified by a tag. *)
Inductive value :=
| VNone
| VBool (b : bool)
| VNum (n : Z)
| VStr (s : string)
| VList (l : list value)
| VDict (d : list (string * value))
| VObject (tag : string).

(** [v is None] *)
Definition is_none (v : value) : bool :=
  match v with VNone => true | _ => false end.

(** Python truthiness, as used by [if doc_id:]. *)
Definition truthy (v : value) : bool :=
  match v with
  | VNone => false
  | VBool b => b
  | VNum n => negb (n =? 0)%Z
  | VStr s => negb (String.eqb s "")
  | VList l => match l with [] => false | _ => true end
  | VDict d => match d with [] => false | _ => true end
  | VObject _ => true
  end.

(** ** Strings *)

(** ['/'.join(parts)] *)
Definition join (parts : list string) : string := String.concat "/" parts.

(** [pat in s] on strings: [pat] occurs in [s] as a substring. *)
Fixpoint contains (pat s : string) : bool :=
  String.prefix pat s ||
  match s with
  | EmptyString => false
  | String _ s' => contains pat s'
  end.

(** [k[1:] if k[0] == '/' else k]; the callers pass a [join] of three
    parts, which is never empty. *)
Definition strip_leading_sep (k : string) : string :=
  match k with
  | String c rest => if Ascii.eqb c "/" then rest else k
  | EmptyString => k
  end.

Definition temp_doc_id : string := "@temp_doc_id".

(** [s] ends with [suffix]. *)
Definition ends_with (suffix s : string) : Prop := ∃ p, s = p +:+ suffix.

(** ** Results *)

Inductive result (E A : Type) :=
| Ok (a : A)
| Raise (e : E).
Arguments Ok {E A} a.
Arguments Raise {E A} e.

(** Exceptions that escape from a collaborator (a field descriptor or the
    constructor of a nested model).  [key] catches the first two. *)
Inductive field_exn :=
| RequiredField
| FieldTypeError
| FieldException (what : string).

(** ** The instance state *)

(** [attrs] is the instance [__dict__] restricted to the attributes that hold
    field values (declared and extra ones); the other members of [Model] that
    the methods below touch have a component of their own. *)
Record Instance := mkInstance {
  parent : string;
  _key : option string;
  attrs : gmap string value;
  _field_changed : gset string;
  _extra_fields : gset string;
}.

Definition set_parent (self : Instance) (p : string) : Instance :=
  mkInstance p (_key self) (attrs self) (_field_changed self) (_extra_fields self).
Definition set__key (self : Instance) (k : option string) : Instance :=
  mkInstance (parent self) k (attrs self) (_field_changed self) (_extra_fields self).
Definition set_attrs (self : Instance) (a : gmap string value) : Instance :=
  mkInstance (parent self) (_key self) a (_field_changed self) (_extra_fields self).
Definition set__field_changed (self : Instance) (c : gset string) : Instance :=
  mkInstance (parent self) (_key self) (attrs self) c (_extra_fields self).
Definition set__extra_fields (self : Instance) (x : gset string) : Instance :=
  mkInstance (parent self) (_key self) (attrs self) (_field_changed self) x.

(** Exceptions raised by the methods of [Model] themselves, and
    [Propagated] for what comes out of a collaborator unhandled. *)
Inductive exn :=
| AttributeError
| AbstractNotInstantiate
| NotImplementedError (unknown_fields : gset string)
| ModelSerializingWrappedError (model : Instance) (path : list string) (cause : field_exn)
| InvalidKey
| ValueError
| KeyError (k : string)
| TypeError
| Propagated (e : field_exn).

Abbreviation res := (result exn).

(** Sequencing: an exception ends the computation. *)
#[global] Instance result_bind {E} : MBind (result E) := λ A B k r,
  match r with
  | Ok a => k a
  | Raise e => Raise e
  end.

(** Run a collaborator; what it raises propagates. *)
Definition call {A} (r : result field_exn A) : res A :=
  match r with
  | Ok a => Ok a
  | Raise e => Raise (Propagated e)
  end.

(** [for x in l: s = f(s, x)] where the body may raise. *)
Fixpoint for_each {A S} (f : S → A → res S) (l : list A) (s : S) : res S :=
  match l with
  | [] => Ok s
  | x :: l' => s' ← f s x; for_each f l' s'
  end.

(** ** Options and descriptors *)

(** [fireo.utils.types.DumpOptions], the two flags [Model] reads. *)
Record DumpOptions := mkDumpOptions {
  ignore_unchanged : bool;
  ignore_default_none : bool;
}.

(** [DumpOptions()] *)
Definition DumpOptions_default : DumpOptions := mkDumpOptions false false.

(** [fireo.utils.types.LoadOptions] *)
Record LoadOptions := mkLoadOptions {
  lo_model : Instance;
  lo_stored : bool;
  lo_merge : bool;
  lo_by_column_name : bool;
}.

(** The classes of [fireo.fields] that [Model] tests with [isinstance],
    with the flag it reads from each. *)
Inductive field_class :=
| IDField (include_in_document : bool)
| MapField
| ListField
| NestedModelField
| DateTime (auto_update : bool)
| PlainField.

(** A field descriptor, as far as [Model] uses it. *)
Record Field := mkField {
  name : string;
  db_column_name : string;
  class_of : field_class;
  (** [field.get_value(value, dump_options)] *)
  get_value : value → DumpOptions → result field_exn value;
  (** [field.field_value(raw_value, load_options)] *)
  field_value : value → LoadOptions → result field_exn value;
  (** [field.nested_model()] *)
  nested_model : result field_exn value;
  (** [field.nested_model.from_dict(d)] *)
  nested_model_from_dict : list (string * value) → result field_exn value;
}.

(** [isinstance(field, IDField)] *)
Definition is_IDField (f : Field) : bool :=
  match class_of f with IDField _ => true | _ => false end.

(** [field.include_in_document] of an [IDField] *)
Definition include_in_document_of (f : Field) : bool :=
  match class_of f with IDField b => b | _ => false end.

(** [isinstance(field, (MapField, ListField, NestedModelField))] *)
Definition is_composite (f : Field) : bool :=
  match class_of f with
  | MapField | ListField | NestedModelField => true
  | _ => false
  end.

(** [isinstance(field, NestedModelField)] *)
Definition is_NestedModelField (f : Field) : bool :=
  match class_of f with NestedModelField => true | _ => false end.

(** [isinstance(field, DateTime) and field.raw_attributes.get('auto_update', False)] *)
Definition is_auto_update (f : Field) : bool :=
  match class_of f with DateTime b => b | _ => false end.

(** [_meta]: the registry of one model class.  [field_list] is the ordered
    dict of the declared fields, keyed by [name]. *)
Record Meta := mkMeta {
  field_list : list Field;
  meta_id : string * Field;
  abstract : bool;
  collection_name : string;
  get_field_by_column_name : string → option Field;
}.

(** The members of [Model] itself.  A field of one of these names would
    alias the state of the instance; schemas with such fields are outside
    this embedding. *)
Definition Model_members : list string :=
  [ "_key"; "parent"; "_meta"; "collection"; "collection_name";
    "_field_changed"; "_extra_fields"; "_create_time"; "_update_time"; "Meta";
    "from_dict"; "merge_with_dict"; "to_dict"; "to_db_dict";
    "populate_from_doc_dict"; "_get_fields"; "_id"; "key"; "_set_key";
    "get_firestore_create_time"; "get_firestore_update_time";
    "list_subcollections"; "save"; "upsert"; "update"; "refresh";
    "_set_orig_attr"; "document_path"; "document_reference";
    "_is_field_unchanged" ].

Definition is_member (k : string) : bool := bool_decide (k ∈ Model_members).

(** The schemas the embedding covers: the keys of [field_list] are distinct,
    and no declared, identifier or ad hoc field is named like a member of
    [Model]. *)
Record Meta_ok (meta : Meta) : Prop := {
  names_distinct : NoDup (name <$> field_list meta);
  names_free : ∀ f, f ∈ field_list meta → is_member (name f) = false;
  id_free : is_member (meta_id meta).1 = false;
  adhoc_free : ∀ k f, get_field_by_column_name meta k = Some f → is_member (name f) = false;
}.

(** What a method hands to the manager, [self.__class__.collection], when it
    delegates. *)
Inductive collection_call :=
| Collection_update (mutable_instance : Instance) (transaction batch : value)
| Collection_refresh (mutable_instance : Instance) (transaction : value).

(** ** The methods of [Model] *)

Section Model.

Context (meta : Meta).
(** The order in which Python iterates over a set of strings. *)
Context (set_iter : gset string → list string).
(** [fireo.utils.utils.get_parent_doc] and [get_id] *)
Context (get_parent_doc : string → string) (get_id : string → value).

(** [k in self._meta.field_list] *)
Definition declared (k : string) : bool :=
  bool_decide (k ∈ name <$> field_list meta).

(** [set(self._meta.field_list)] *)
Definition declared_names : gset string :=
  list_to_set (name <$> field_list meta).

(** [self._meta.field_list[k]] *)
Definition lookup_field (k : string) : option Field :=
  List.find (λ f, String.eqb (name f) k) (field_list meta).

(** [getattr(self, k)] for a declared field, and [getattr(self, k, None)]:
    the instance attribute, or else [None], which is the class attribute the
    registry leaves for a declared field and the default given otherwise. *)
Definition getattr (self : Instance) (k : string) : value :=
  default VNone (attrs self !! k).

(** [super(Model, self).__setattr__(k, v)] *)
Definition object_setattr (self : Instance) (k : string) (v : value) : Instance :=
  set_attrs self (<[k := v]> (attrs self)).

(** [delattr(self, k)] *)
Definition delattr (self : Instance) (k : string) : res Instance :=
  match attrs self !! k with
  | Some _ => Ok (set_attrs self (delete k (attrs self)))
  | None => Raise AttributeError
  end.

Definition __setattr__ (self : Instance) (k : string) (v : value) : Instance :=
  let self :=
    if declared k
    then set__field_changed self ({[k]} ∪ _field_changed self)
    else self in
  object_setattr self k v.

Definition _set_orig_attr (self : Instance) (k : string) (v : value) : Instance :=
  let self :=
    if negb (String.eqb k "_id") && negb (declared k)
    then set__extra_fields self ({[k]} ∪ _extra_fields self)
    else self in
  object_setattr self k v.

Definition _is_field_unchanged (self : Instance) (field_name : string) : res bool :=
  if bool_decide (field_name ∈ _field_changed self) then Ok true
  else
    match lookup_field field_name with
    | None => Raise (KeyError field_name)
    | Some field =>
        let v := getattr self field_name in
        if negb (is_none v) && is_composite field then Ok true
        else if is_auto_update field then Ok true
        else Ok false
    end.

(** The [_id] property, reading. *)
Definition _id (self : Instance) : res (value * Instance) :=
  let '(id_name, field) := meta_id meta in
  let raw_value := getattr self id_name in
  v ← call (get_value field raw_value DumpOptions_default);
  let self :=
    if is_none raw_value && negb (is_none v)
    then __setattr__ self id_name v
    else self in
  Ok (v, self).

Definition _set_key (self : Instance) (doc_id : value) : res Instance :=
  match doc_id with
  | VStr d =>
      let p := join [parent self; collection_name meta; d] in
      Ok (set__key self (Some (strip_leading_sep p)))
  | _ => Raise TypeError
  end.

(** The [_id] property, writing. *)
Definition _id_setter (self : Instance) (doc_id : value) : res Instance :=
  let '(id_field_name, _) := meta_id meta in
  let self := __setattr__ self id_field_name doc_id in
  if truthy doc_id then _set_key self doc_id else Ok self.

(** What [key] returns when [self._key] is not set: the [try] block, its
    handler, and the removal of the leading separator. *)
Definition compose_key (self : Instance) : res (string * Instance) :=
  let placeholder s :=
    Ok (strip_leading_sep (join [parent s; collection_name meta; temp_doc_id]), s) in
  match _id self with
  | Ok (VStr i, self') =>
      Ok (strip_leading_sep (join [parent self'; collection_name meta; i]), self')
  | Ok (_, self') => placeholder self'
  | Raise (Propagated RequiredField) | Raise (Propagated FieldTypeError) =>
      placeholder self
  | Raise e => Raise e
  end.

(** The [key] property. *)
Definition key (self : Instance) : res (string * Instance) :=
  match _key self with
  | Some k => if String.eqb k "" then compose_key self else Ok (k, self)
  | None => compose_key self
  end.

Definition update (self : Instance) (doc_key : option string)
    (transaction batch : value) : res collection_call :=
  '(doc_key, self) ←
    match doc_key with
    | Some (String _ _) => Ok (doc_key, self)
    | _ => '(k, self) ← key self; Ok (Some k, self)
    end;
  match doc_key with
  | Some k =>
      if negb (contains temp_doc_id k) then
        let self := set_parent self (get_parent_doc k) in
        self ← _id_setter self (get_id k);
        Ok (Collection_update self transaction batch)
      else Ok (Collection_update self transaction batch)
  | None =>
      '(k, self) ← key self;
      if contains temp_doc_id k then Raise InvalidKey
      else Ok (Collection_update self transaction batch)
  end.

Definition refresh (self : Instance) (transaction : value) : res collection_call :=
  '(k, self) ← key self;
  if is_none (VStr k) then Raise ValueError
  else Ok (Collection_refresh self transaction).

(** The body of the loop of [to_db_dict] for one field. *)
Definition to_db_dict_step (self : Instance) (dump_options : DumpOptions)
    (result : gmap string value) (field : Field) : res (gmap string value) :=
  if is_IDField field && negb (include_in_document_of field) then Ok result
  else
    field_changed ← _is_field_unchanged self (name field);
    if ignore_unchanged dump_options && negb field_changed then Ok result
    else
      match get_value field (getattr self (name field)) dump_options with
      | Raise error => Raise (ModelSerializingWrappedError self [name field] error)
      | Ok v =>
          if negb (is_none v) || negb (ignore_default_none dump_options) || field_changed
          then Ok (<[db_column_name field := v]> result)
          else Ok result
      end.

Definition to_db_dict (self : Instance) (dump_options : DumpOptions)
    : res (gmap string value) :=
  for_each (to_db_dict_step self dump_options) (field_list meta) ∅.

(** The body of the main loop of [populate_from_doc_dict] for one field. *)
Definition populate_step (doc_dict : gmap string value)
    (stored merge by_column_name : bool) (self : Instance) (field : Field)
    : res Instance :=
  let field_name_in_dict :=
    if by_column_name then db_column_name field else name field in
  let raw_value := default VNone (doc_dict !! field_name_in_dict) in
  let has_value := negb (is_none (getattr self (name field))) in
  if bool_decide (field_name_in_dict ∈ dom doc_dict) || (negb merge && has_value)
  then
    v ← call (field_value field raw_value
                (mkLoadOptions self stored merge by_column_name));
    if stored then Ok (_set_orig_attr self (name field) v)
    else Ok (__setattr__ self (name field) v)
  else Ok self.

Definition populate_from_doc_dict (self : Instance) (doc_dict : gmap string value)
    (stored merge by_column_name : bool) : res Instance :=
  self ←
    (if negb merge then
       let old_extra_fields := _extra_fields self ∖ declared_names in
       self ← for_each delattr (set_iter old_extra_fields) self;
       Ok (set__extra_fields self ∅)
     else Ok self);
  let new_extra_fields_names := dom doc_dict ∖ declared_names in
  if negb (bool_decide (new_extra_fields_names = ∅)) && negb by_column_name
  then Raise (NotImplementedError new_extra_fields_names)
  else
    let new_extra_fields :=
      omap (get_field_by_column_name meta) (set_iter new_extra_fields_names) in
    self ← for_each (populate_step doc_dict stored merge by_column_name)
             (field_list meta ++ new_extra_fields) self;
    if negb merge && stored then Ok (set__field_changed self ∅)
    else Ok self.

(** [kwargs[k]] for a key that is there. *)
Definition kwargs_get (kwargs : list (string * value)) (k : string) : value :=
  default VNone (snd <$> List.find (λ kv, String.eqb (fst kv) k) kwargs).

(** The body of the second loop of [__init__] for one field. *)
Definition init_nested_step (kwargs : list (string * value))
    (self : Instance) (f : Field) : res Instance :=
  if is_NestedModelField f then
    if negb (bool_decide (name f ∈ kwargs.*1)) then
      v ← call (nested_model f);
      Ok (__setattr__ self (name f) v)
    else
      match kwargs_get kwargs (name f) with
      | VDict d =>
          v ← call (nested_model_from_dict f d);
          Ok (__setattr__ self (name f) v)
      | _ => Ok self
      end
  else Ok self.

(** [Model.__init__(self, *args, parent, **kwargs)]; the keyword arguments
    are listed in the order they were passed. *)
Definition __init__ (args : list value) (parent : string)
    (kwargs : list (string * value)) : res Instance :=
  match args with
  | _ :: _ => Raise AttributeError
  | [] =>
      let unexpected_kwargs : gset string := list_to_set kwargs.*1 ∖ declared_names in
      if negb (bool_decide (unexpected_kwargs = ∅)) then Raise AttributeError
      else if abstract meta then Raise AbstractNotInstantiate
      else
        let self := mkInstance parent None ∅ ∅ ∅ in
        let self := foldl (λ s kv, __setattr__ s kv.1 kv.2) self kwargs in
        for_each (init_nested_step kwargs) (field_list meta) self
  end.



End Model.

(** ** Concrete schemas

    Model classes with an identifier and a text field, and with a list, an
    auto-updating timestamp or a nested model; descriptors that pass values
    through; a registry that resolves every unknown column to an ad hoc
    pass-through field. *)

Definition pass_through (nm col : string) (c : field_class) : Field :=
  mkField nm col c
    (λ v _, Ok v) (λ v _, Ok v)
    (Ok (VObject ("instance of " +:+ nm))) (λ d, Ok (VDict d)).

Definition id_field : Field := pass_through "id" "id" (IDField false).
Definition name_field : Field := pass_through "name" "name" PlainField.
Definition tags_field : Field := pass_through "tags" "tags" ListField.
Definition updated_field : Field := pass_through "updated" "updated" (DateTime true).
Definition profile_field : Field := pass_through "profile" "profile" NestedModelField.

Definition adhoc_registry (k : string) : option Field :=
  if is_member k then None else Some (pass_through k k PlainField).

(** [class User(Model): name = TextField()] *)
Definition User : Meta :=
  mkMeta [id_field; name_field] ("id", id_field) false "users" adhoc_registry.

(** [class Post(Model): name = TextField(); tags = ListField()] *)
Definition Post : Meta :=
  mkMeta [id_field; name_field; tags_field] ("id", id_field) false "posts" adhoc_registry.

(** [class Account(Model): name = TextField(); profile = NestedModelField(Profile)] *)
Definition Account : Meta :=
  mkMeta [id_field; name_field; profile_field] ("id", id_field) false "accounts" adhoc_registry.

(** [class Event(Model): name = TextField(); updated = DateTime(auto_update=True)] *)
Definition Event : Meta :=
  mkMeta [id_field; name_field; updated_field] ("id", id_field) false "events" adhoc_registry.

(** A never-saved instance: no parent, no cached key, no attribute. *)
Definition unsaved : Instance := mkInstance "" None ∅ ∅ ∅.

(** An instance of the sub-collection of document [a] with identifier [u1]. *)
Definition u1_of_a : Instance := mkInstance "a" None {["id" := VStr "u1"]} {["id"]} ∅.

(** ** Strings: separators and the placeholder *)

Lemma append_nil (b : string) : "" +:+ b = b.
Proof. reflexivity. Qed.

Lemma append_cons (x : ascii) (a b : string) : String x a +:+ b = String x (a +:+ b).
Proof. reflexivity. Qed.

Lemma append_assoc (a b c : string) : (a +:+ b) +:+ c = a +:+ (b +:+ c).
Proof.
  induction a as [|x a IH]; [reflexivity |].
  by rewrite !append_cons, IH.
Qed.

Lemma join3 (a b c : string) : join [a; b; c] = a +:+ "/" +:+ b +:+ "/" +:+ c.
Proof. reflexivity. Qed.

Lemma strip_leading_sep_app (x y : string) :
  x ≠ "" → strip_leading_sep (x +:+ y) = strip_leading_sep x +:+ y.
Proof.
  destruct x as [|c x]; [done | intros _].
  rewrite append_cons. unfold strip_leading_sep.
  destruct (Ascii.eqb c "/"); [reflexivity | by rewrite append_cons].
Qed.

Lemma strip_leading_sep_no_parent (rest : string) :
  strip_leading_sep ("" +:+ "/" +:+ rest) = rest.
Proof. reflexivity. Qed.

Lemma strip_leading_sep_parent (c : ascii) (p rest : string) :
  c ≠ "/"%char → strip_leading_sep (String c p +:+ rest) = String c p +:+ rest.
Proof.
  intros Hc. rewrite append_cons. unfold strip_leading_sep.
  apply Ascii.eqb_neq in Hc. by rewrite Hc.
Qed.

Lemma prefix_app (p s : string) : String.prefix p (p +:+ s) = true.
Proof.
  induction p as [|c p IH]; [by destruct s |].
  rewrite append_cons. simpl.
  destruct (ascii_dec c c); [exact IH | done].
Qed.

Lemma contains_prefix (pat s : string) :
  String.prefix pat s = true → contains pat s = true.
Proof.
  intros H.
  assert (contains pat s = String.prefix pat s ||
            match s with EmptyString => false | String _ s' => contains pat s' end)
    as -> by (by destruct s).
  by rewrite H.
Qed.

Lemma contains_app (pat p s : string) : contains pat (p +:+ pat +:+ s) = true.
Proof.
  induction p as [|c p IH].
  - rewrite append_nil. apply contains_prefix, prefix_app.
  - rewrite append_cons. simpl. rewrite IH. apply orb_true_r.
Qed.

Lemma strip_join_nonempty (a b c : string) :
  strip_leading_sep (join [a; b; c]) ≠ "".
Proof.
  rewrite join3. destruct a as [|x a].
  - rewrite strip_leading_sep_no_parent. by destruct b.
  - rewrite append_cons. unfold strip_leading_sep.
    destruct (Ascii.eqb x "/"); [by destruct a | done].
Qed.

Lemma join_placeholder_ends (a b : string) :
  ends_with ("/" +:+ temp_doc_id) (strip_leading_sep (join [a; b; temp_doc_id])).
Proof.
  exists (strip_leading_sep (a +:+ "/" +:+ b)).
  rewrite join3, <- strip_leading_sep_app.
  - f_equal. by rewrite !append_assoc.
  - by destruct a.
Qed.

Lemma join_placeholder_contains (a b : string) :
  contains temp_doc_id (strip_leading_sep (join [a; b; temp_doc_id])) = true.
Proof.
  destruct (join_placeholder_ends a b) as [p ->].
  replace (p +:+ "/" +:+ temp_doc_id) with ((p +:+ "/") +:+ temp_doc_id +:+ "").
  - apply contains_app.
  - rewrite append_assoc. reflexivity.
Qed.

(** ** The key *)

Definition raises_InvalidKey {A} (r : res A) : bool :=
  match r with Raise InvalidKey => true | _ => false end.

Definition raises_ValueError {A} (r : res A) : bool :=
  match r with Raise ValueError => true | _ => false end.

Section KeyFacts.

Context (meta : Meta).

(** Reading [_id] touches neither the parent nor the cached key. *)
Lemma _id_frame self v self' :
  _id meta self = Ok (v, self') →
  parent self' = parent self ∧ _key self' = _key self.
Proof.
  unfold _id. destruct (meta_id meta) as [id_name field].
  destruct (get_value field _ _) as [w|e]; simpl; [|done].
  intros [= <- <-]. destruct (_ && _); [|done].
  unfold __setattr__. by destruct (declared meta id_name).
Qed.

(** What [_id] raises comes from the descriptor. *)
Lemma _id_raises self e :
  _id meta self = Raise e → ∃ fe, e = Propagated fe.
Proof.
  unfold _id. destruct (meta_id meta) as [id_name field].
  destruct (get_value field _ _) as [w|fe]; simpl; [done |].
  intros [= <-]. by exists fe.
Qed.

Lemma compose_key_resolved self i self' :
  _id meta self = Ok (VStr i, self') →
  compose_key meta self =
    Ok (strip_leading_sep (join [parent self; collection_name meta; i]), self').
Proof.
  intros H. unfold compose_key. rewrite H.
  by destruct (_id_frame _ _ _ H) as [-> _].
Qed.

Lemma compose_key_absent self self' :
  _id meta self = Ok (VNone, self') →
  compose_key meta self =
    Ok (strip_leading_sep (join [parent self; collection_name meta; temp_doc_id]), self').
Proof.
  intros H. unfold compose_key. rewrite H.
  by destruct (_id_frame _ _ _ H) as [-> _].
Qed.

Lemma compose_key_required self :
  _id meta self = Raise (Propagated RequiredField) →
  compose_key meta self =
    Ok (strip_leading_sep (join [parent self; collection_name meta; temp_doc_id]), self).
Proof. intros H. unfold compose_key. by rewrite H. Qed.

Lemma compose_key_raises self e :
  compose_key meta self = Raise e → ∃ fe, e = Propagated fe.
Proof.
  unfold compose_key. destruct (_id meta self) as [[v s]|e'] eqn:H.
  - by destruct v.
  - destruct (_id_raises _ _ H) as [fe ->]. destruct fe; [done | done |].
    intros [= <-]. eauto.
Qed.

Lemma key_raises self e :
  key meta self = Raise e → ∃ fe, e = Propagated fe.
Proof.
  unfold key. destruct (_key self) as [k|]; [destruct (String.eqb k "")|];
    try done; apply compose_key_raises.
Qed.

Lemma key_uncached self :
  _key self = None ∨ _key self = Some "" → key meta self = compose_key meta self.
Proof. unfold key. by intros [-> | ->]. Qed.

End KeyFacts.

(** The concrete schemas are within the embedding. *)
Lemma adhoc_registry_free k f :
  adhoc_registry k = Some f → is_member (name f) = false.
Proof.
  unfold adhoc_registry. destruct (is_member k) eqn:E; [done |].
  by intros [= <-].
Qed.

Ltac solve_Meta_ok :=
  split;
  [ apply (bool_decide_unpack _); vm_compute; exact I
  | intros f Hf; cbn in Hf;
    repeat (apply elem_of_cons in Hf as [-> | Hf]; [reflexivity |]);
    by apply elem_of_nil in Hf
  | reflexivity
  | exact adhoc_registry_free ].

Lemma User_ok : Meta_ok User.
Proof. solve_Meta_ok. Qed.

Lemma Post_ok : Meta_ok Post.
Proof. solve_Meta_ok. Qed.

Lemma Account_ok : Meta_ok Account.
Proof. solve_Meta_ok. Qed.

(** C6. When no key is cached, [key] is [parent/collection_name/id] without
    its leading separator: [collection_name/id] under an empty parent, and
    the three segments as they are under a parent that does not start with a
    separator.  When the identifier resolves to [None], or its resolution
    raises [RequiredField], [key] still returns, and what it returns ends in
    the segment [/@temp_doc_id].  A key cached by [_set_key] has the same
    form, and [key] returns it. *)
Theorem key_composition (meta : Meta) (self : Instance) :
  Meta_ok meta →
  (_key self = None ∨ _key self = Some "" →
   (∀ i self', _id meta self = Ok (VStr i, self') →
      key meta self =
        Ok (strip_leading_sep (join [parent self; collection_name meta; i]), self')
      ∧ (parent self = "" →
         key meta self = Ok (collection_name meta +:+ "/" +:+ i, self'))
      ∧ (∀ c p, parent self = String c p → c ≠ "/"%char →
         key meta self =
           Ok (parent self +:+ "/" +:+ collection_name meta +:+ "/" +:+ i, self')))
   ∧ ((∃ self', _id meta self = Ok (VNone, self'))
      ∨ _id meta self = Raise (Propagated RequiredField) →
      ∃ k self', key meta self = Ok (k, self')
        ∧ k = strip_leading_sep (join [parent self; collection_name meta; temp_doc_id])
        ∧ ends_with ("/" +:+ temp_doc_id) k))
  ∧ (∀ doc_id, ∃ self',
       _set_key meta self (VStr doc_id) = Ok self'
       ∧ key meta self' =
           Ok (strip_leading_sep (join [parent self; collection_name meta; doc_id]),
               self')).
Proof.
  intros _. split.
  - intros Hkey. rewrite (key_uncached meta self Hkey). split.
    + intros i self' Hid. rewrite (compose_key_resolved _ _ _ _ Hid), join3.
      split; [done | split].
      * intros ->. by rewrite strip_leading_sep_no_parent.
      * intros c p -> Hc. by rewrite strip_leading_sep_parent.
    + intros [[self' Hid] | Hid].
      * rewrite (compose_key_absent _ _ _ Hid).
        eexists _, _. split; [done | split; [done |]]. apply join_placeholder_ends.
      * rewrite (compose_key_required _ _ Hid).
        eexists _, _. split; [done | split; [done |]]. apply join_placeholder_ends.
  - intros doc_id. eexists. split; [reflexivity |].
    unfold key. simpl.
    pose proof (strip_join_nonempty (parent self) (collection_name meta) doc_id) as Hne.
    apply String.eqb_neq in Hne. by rewrite Hne.
Qed.

Lemma key_composition_witness :
  key User u1_of_a = Ok ("a/users/u1", u1_of_a)
  ∧ key User (set_parent u1_of_a "") = Ok ("users/u1", set_parent u1_of_a "")
  ∧ ∃ k self', key User unsaved = Ok (k, self')
      ∧ k = "users/@temp_doc_id" ∧ ends_with ("/" +:+ temp_doc_id) k.
Proof.
  split; [| split].
  - destruct (key_composition User u1_of_a User_ok) as [H _].
    destruct (H (or_introl eq_refl)) as [H1 _].
    destruct (H1 "u1" u1_of_a eq_refl) as (_ & _ & H3).
    exact (H3 "a"%char "" eq_refl ltac:(discriminate)).
  - destruct (key_composition User (set_parent u1_of_a "") User_ok) as [H _].
    destruct (H (or_introl eq_refl)) as [H1 _].
    destruct (H1 "u1" (set_parent u1_of_a "") eq_refl) as (_ & H2 & _).
    exact (H2 eq_refl).
  - destruct (key_composition User unsaved User_ok) as [H _].
    destruct (H (or_introl eq_refl)) as [_ H2].
    exact (H2 (or_introl (ex_intro _ unsaved eq_refl))).
Defined.

(** ** [update] and [refresh] *)

(** After [key = self.key] the local [key] is a string, so the branch of
    [update] that raises [InvalidKey] is never taken. *)
Lemma update_never_InvalidKey meta get_parent_doc get_id self doc_key transaction batch :
  raises_InvalidKey (update meta get_parent_doc get_id self doc_key transaction batch)
  = false.
Proof.
  unfold update.
  assert (∀ s k, raises_InvalidKey (
    if negb (contains temp_doc_id k)
    then s' ← _id_setter meta (set_parent s (get_parent_doc k)) (get_id k);
         Ok (Collection_update s' transaction batch)
    else Ok (Collection_update s transaction batch)) = false) as Hbody.
  { intros s k. destruct (negb _); [|done].
    unfold _id_setter. destruct (meta_id meta) as [n f].
    destruct (truthy _); [|done].
    unfold _set_key. by destruct (get_id k). }
  destruct doc_key as [[|c k]|]; [| exact (Hbody self (String c k)) |];
    (destruct (key meta self) as [[k0 s0]|e] eqn:E;
     [exact (Hbody s0 k0) | by destruct (key_raises _ _ _ E) as [fe ->]]).
Qed.

(** C1. An instance whose key contains the placeholder is handed to the
    manager's [_update] by [update()] called without a key: the call does not
    raise [InvalidKey]. *)
Theorem update_placeholder_key_delegates meta get_parent_doc get_id
    (self self' : Instance) (k : string) (transaction batch : value) :
  key meta self = Ok (k, self') →
  contains temp_doc_id k = true →
  update meta get_parent_doc get_id self None transaction batch
  = Ok (Collection_update self' transaction batch).
Proof.
  intros Hkey Htemp. unfold update. rewrite Hkey. simpl. by rewrite Htemp.
Qed.

Lemma update_placeholder_key_delegates_witness :
  key User unsaved = Ok ("users/@temp_doc_id", unsaved)
  ∧ update User (λ _, "") VStr unsaved None VNone VNone
    = Ok (Collection_update unsaved VNone VNone).
Proof.
  split; [reflexivity |].
  exact (update_placeholder_key_delegates User (λ _, "") VStr unsaved unsaved
           "users/@temp_doc_id" VNone VNone eq_refl eq_refl).
Defined.

(** [key] returns a string or raises what the identifier descriptor raised,
    so the guard of [refresh] never fires. *)
Lemma refresh_never_ValueError meta self transaction :
  raises_ValueError (refresh meta self transaction) = false.
Proof.
  unfold refresh. destruct (key meta self) as [[k s]|e] eqn:E; simpl; [done |].
  by destruct (key_raises _ _ _ E) as [fe ->].
Qed.

(** C8. Whenever [key] returns, [refresh] hands the instance to the
    manager's [_refresh]; this includes the instances whose identifier does
    not resolve, for which [key] returns the placeholder key: the call does not
    raise the missing-key [ValueError]. *)
Theorem refresh_delegates meta (self self' : Instance) (k : string) (transaction : value) :
  key meta self = Ok (k, self') →
  refresh meta self transaction = Ok (Collection_refresh self' transaction).
Proof. intros Hkey. unfold refresh. by rewrite Hkey. Qed.

Lemma refresh_delegates_witness :
  _id User unsaved = Ok (VNone, unsaved)
  ∧ refresh User unsaved VNone = Ok (Collection_refresh unsaved VNone).
Proof.
  split; [reflexivity |].
  exact (refresh_delegates User unsaved unsaved "users/@temp_doc_id" VNone eq_refl).
Defined.

(** ** The change predicate *)

(** [field_list[f.name]] is [f] for a field of a registry with distinct keys. *)
Lemma lookup_field_declared meta f :
  NoDup (name <$> field_list meta) → f ∈ field_list meta →
  lookup_field meta (name f) = Some f.
Proof.
  unfold lookup_field. induction (field_list meta) as [|g l IH]; simpl.
  - intros _ H. by apply elem_of_nil in H.
  - intros Hnd [-> | Hin]%elem_of_cons.
    + by rewrite String.eqb_refl.
    + apply NoDup_cons in Hnd as [Hg Hnd].
      destruct (String.eqb (name g) (name f)) eqn:E; [| by apply IH].
      apply String.eqb_eq in E. exfalso. apply Hg. rewrite E.
      by apply list_elem_of_fmap_2.
Qed.

Lemma lookup_field_Some meta k f :
  lookup_field meta k = Some f → f ∈ field_list meta ∧ name f = k.
Proof.
  unfold lookup_field. intros H. apply find_some in H as [Hin E].
  split; [by apply list_elem_of_In | by apply String.eqb_eq].
Qed.

(** C4. [_is_field_unchanged(name)] returns true when the name is in
    [_field_changed]; for a declared name it returns true exactly when the
    name is in [_field_changed], or the field is a map, list or nested model
    whose current value is not [None], or the field is a [DateTime] with
    [auto_update], and false in every other case. *)
Theorem _is_field_unchanged_spec (meta : Meta) (self : Instance) (field_name : string) :
  Meta_ok meta →
  (field_name ∈ _field_changed self →
   _is_field_unchanged meta self field_name = Ok true)
  ∧ (∀ field, lookup_field meta field_name = Some field →
     _is_field_unchanged meta self field_name =
       Ok (bool_decide (field_name ∈ _field_changed self)
           || (is_composite field && negb (is_none (getattr self field_name)))
           || is_auto_update field)).
Proof.
  intros _. unfold _is_field_unchanged. split.
  - intros H. by rewrite bool_decide_eq_true_2.
  - intros field ->. destruct (bool_decide _); [done |]. simpl.
    destruct (is_none _), (is_composite field), (is_auto_update field); done.
Qed.

(** A loaded post: [tags] holds a list, nothing is marked as changed. *)
Definition loaded_post : Instance :=
  mkInstance "" None {["name" := VStr "n"; "tags" := VList [VNum 1]]} ∅ ∅.

Lemma _is_field_unchanged_spec_witness :
  _is_field_unchanged Post (set__field_changed loaded_post {["name"]}) "name" = Ok true
  ∧ _is_field_unchanged Post loaded_post "name" = Ok false
  ∧ _is_field_unchanged Post loaded_post "tags" = Ok true.
Proof.
  split; [| split].
  - apply (_is_field_unchanged_spec Post (set__field_changed loaded_post {["name"]})
             "name" Post_ok).
    vm_compute. reflexivity.
  - exact (proj2 (_is_field_unchanged_spec Post loaded_post "name" Post_ok)
             name_field eq_refl).
  - exact (proj2 (_is_field_unchanged_spec Post loaded_post "tags" Post_ok)
             tags_field eq_refl).
Defined.

(** ** [to_db_dict] *)

(** What [to_db_dict] decides for one field: raise, leave the field out
    ([None]) or store its encoded value under its column. *)
Definition dump_field (meta : Meta) (self : Instance) (dump_options : DumpOptions)
    (field : Field) : res (option value) :=
  if is_IDField field && negb (include_in_document_of field) then Ok None
  else
    field_changed ← _is_field_unchanged meta self (name field);
    if ignore_unchanged dump_options && negb field_changed then Ok None
    else
      match get_value field (getattr self (name field)) dump_options with
      | Raise error => Raise (ModelSerializingWrappedError self [name field] error)
      | Ok v =>
          if negb (is_none v) || negb (ignore_default_none dump_options) || field_changed
          then Ok (Some v)
          else Ok None
      end.

Definition store (result : gmap string value) (field : Field) (o : option value)
    : gmap string value :=
  match o with
  | Some v => <[db_column_name field := v]> result
  | None => result
  end.

Section ToDbDict.

Context (meta : Meta) (self : Instance) (dump_options : DumpOptions).

Lemma to_db_dict_step_dump result field :
  to_db_dict_step meta self dump_options result field =
    o ← dump_field meta self dump_options field; Ok (store result field o).
Proof.
  unfold to_db_dict_step, dump_field.
  destruct (_ && _); [done |].
  destruct (_is_field_unchanged _ _ _) as [b|e]; simpl; [|done].
  destruct (_ && _); [done |].
  destruct (get_value _ _ _) as [v|e]; simpl; [|done].
  by destruct (_ || _).
Qed.

Lemma to_db_dict_loop_cons f l acc result :
  for_each (to_db_dict_step meta self dump_options) (f :: l) acc = Ok result →
  ∃ o, dump_field meta self dump_options f = Ok o
    ∧ for_each (to_db_dict_step meta self dump_options) l (store acc f o) = Ok result.
Proof.
  simpl. rewrite to_db_dict_step_dump.
  destruct (dump_field _ _ _ f) as [o|e]; simpl; [|done]. eauto.
Qed.

(** Every field is processed without raising. *)
Lemma to_db_dict_loop_ok l acc result f :
  for_each (to_db_dict_step meta self dump_options) l acc = Ok result →
  f ∈ l → ∃ o, dump_field meta self dump_options f = Ok o.
Proof.
  revert acc. induction l as [|g l IH]; intros acc H Hin.
  - by apply elem_of_nil in Hin.
  - apply to_db_dict_loop_cons in H as (o & Ho & H).
    apply elem_of_cons in Hin as [-> | Hin]; eauto.
Qed.

(** An entry of the result was there before or was stored for a field. *)
Lemma to_db_dict_loop_origin l acc result c v :
  for_each (to_db_dict_step meta self dump_options) l acc = Ok result →
  result !! c = Some v →
  acc !! c = Some v
  ∨ ∃ f, f ∈ l ∧ db_column_name f = c
      ∧ dump_field meta self dump_options f = Ok (Some v).
Proof.
  revert acc. induction l as [|g l IH]; intros acc H Hc.
  - simpl in H. injection H as <-. by left.
  - apply to_db_dict_loop_cons in H as (o & Ho & H).
    destruct (IH _ H Hc) as [Hacc | (f & Hin & Hf & Hd)].
    + destruct o as [w|]; simpl in Hacc; [| by left].
      destruct (decide (db_column_name g = c)) as [E | E].
      * rewrite E, lookup_insert_eq in Hacc. injection Hacc as ->.
        right. exists g. split; [left | done].
      * rewrite lookup_insert_ne in Hacc by done. by left.
    + right. exists f. split; [by right | done].
Qed.

(** Entries are never removed. *)
Lemma to_db_dict_loop_grows l acc result c :
  for_each (to_db_dict_step meta self dump_options) l acc = Ok result →
  is_Some (acc !! c) → is_Some (result !! c).
Proof.
  revert acc. induction l as [|g l IH]; intros acc H Hc.
  - simpl in H. by injection H as <-.
  - apply to_db_dict_loop_cons in H as (o & Ho & H).
    apply (IH _ H). destruct o as [w|]; simpl; [| done].
    destruct (decide (db_column_name g = c)) as [-> | E].
    + rewrite lookup_insert_eq. eauto.
    + by rewrite lookup_insert_ne.
Qed.

(** A stored field is in the result. *)
Lemma to_db_dict_loop_stored l acc result f v :
  for_each (to_db_dict_step meta self dump_options) l acc = Ok result →
  f ∈ l → dump_field meta self dump_options f = Ok (Some v) →
  is_Some (result !! db_column_name f).
Proof.
  revert acc. induction l as [|g l IH]; intros acc H Hin Hf.
  - by apply elem_of_nil in Hin.
  - apply to_db_dict_loop_cons in H as (o & Ho & H).
    apply elem_of_cons in Hin as [-> | Hin]; [| by eapply IH].
    rewrite Hf in Ho. injection Ho as <-.
    apply (to_db_dict_loop_grows _ _ _ _ H). simpl.
    rewrite lookup_insert_eq. eauto.
Qed.

(** Columns of other fields are left alone. *)
Lemma to_db_dict_loop_frame l acc result c :
  for_each (to_db_dict_step meta self dump_options) l acc = Ok result →
  c ∉ db_column_name <$> l → result !! c = acc !! c.
Proof.
  revert acc. induction l as [|g l IH]; intros acc H Hc.
  - simpl in H. by injection H as <-.
  - apply to_db_dict_loop_cons in H as (o & Ho & H).
    rewrite fmap_cons in Hc. apply not_elem_of_cons in Hc as [Hg Hc].
    rewrite (IH _ H Hc). destruct o as [w|]; simpl; [| done].
    by rewrite lookup_insert_ne.
Qed.

(** With distinct columns, the entry of a field is what was decided for it. *)
Lemma to_db_dict_loop_exact l acc result f o :
  for_each (to_db_dict_step meta self dump_options) l acc = Ok result →
  NoDup (db_column_name <$> l) → f ∈ l →
  dump_field meta self dump_options f = Ok o →
  result !! db_column_name f =
    match o with Some v => Some v | None => acc !! db_column_name f end.
Proof.
  revert acc. induction l as [|g l IH]; intros acc H Hnd Hin Hf.
  - by apply elem_of_nil in Hin.
  - apply to_db_dict_loop_cons in H as (o' & Ho & H).
    rewrite fmap_cons in Hnd. apply NoDup_cons in Hnd as [Hg Hnd].
    apply elem_of_cons in Hin as [-> | Hin].
    + rewrite Hf in Ho. injection Ho as <-.
      rewrite (to_db_dict_loop_frame _ _ _ _ H Hg).
      destruct o as [w|]; simpl; [by rewrite lookup_insert_eq | done].
    + rewrite (IH _ H Hnd Hin Hf). destruct o as [w|]; [done |].
      destruct o' as [w|]; simpl; [| done].
      rewrite lookup_insert_ne; [done |].
      intros E. apply Hg. rewrite E. by apply list_elem_of_fmap_2.
Qed.

End ToDbDict.

(** [to_db_dict] returns when no field raises. *)
Lemma to_db_dict_returns meta self dump_options :
  (∀ f, f ∈ field_list meta → ∃ o, dump_field meta self dump_options f = Ok o) →
  ∃ result, to_db_dict meta self dump_options = Ok result.
Proof.
  unfold to_db_dict. generalize (∅ : gmap string value).
  induction (field_list meta) as [|g l IH]; intros acc H; simpl; [eauto |].
  rewrite to_db_dict_step_dump.
  destruct (H g) as [o ->]; [left |]. simpl.
  apply IH. intros f Hf. apply H. by right.
Qed.

(** C5. A field that passes the identifier filter and the [ignore_unchanged]
    filter is encoded, and its column is in the result unless the encoded value
    is [None], [ignore_default_none] is set and the change predicate is false
    for the field; with distinct columns the entry is the encoded value, and
    there is no entry in the excepted case.  A field in [_field_changed] passes
    the second filter and has its entry, whatever its encoded value. *)
Theorem to_db_dict_inclusion (meta : Meta) (self : Instance) (dump_options : DumpOptions)
    (result : gmap string value) (field : Field) (field_changed : bool) :
  Meta_ok meta →
  to_db_dict meta self dump_options = Ok result →
  field ∈ field_list meta →
  is_IDField field && negb (include_in_document_of field) = false →
  _is_field_unchanged meta self (name field) = Ok field_changed →
  ignore_unchanged dump_options && negb field_changed = false →
  ∃ v, get_value field (getattr self (name field)) dump_options = Ok v
    ∧ (is_none v && ignore_default_none dump_options && negb field_changed = false →
       is_Some (result !! db_column_name field))
    ∧ (NoDup (db_column_name <$> field_list meta) →
       result !! db_column_name field =
         if is_none v && ignore_default_none dump_options && negb field_changed
         then None else Some v)
    ∧ (name field ∈ _field_changed self →
       field_changed = true ∧ is_Some (result !! db_column_name field)).
Proof.
  intros _ Hres Hin Hid Hch Hfilter. unfold to_db_dict in Hres.
  destruct (to_db_dict_loop_ok _ _ _ _ _ _ _ Hres Hin) as [o Ho].
  pose proof Ho as Hd. unfold dump_field in Hd.
  rewrite Hid, Hch in Hd. simpl in Hd. rewrite Hfilter in Hd.
  destruct (get_value field _ _) as [v|e]; [| done].
  exists v. split; [done |].
  assert (o = if is_none v && ignore_default_none dump_options && negb field_changed
              then None else Some v) as Eo.
  { destruct (is_none v), (ignore_default_none dump_options), field_changed;
      simpl in *; congruence. }
  split; [| split].
  - intros E. rewrite E in Eo. subst o.
    by eapply to_db_dict_loop_stored.
  - intros Hnd.
    rewrite (to_db_dict_loop_exact _ _ _ _ _ _ _ _ Hres Hnd Hin Ho), Eo.
    destruct (is_none v && ignore_default_none dump_options && negb field_changed);
      [apply lookup_empty | done].
  - intros Hc. assert (field_changed = true) as ->.
    { unfold _is_field_unchanged in Hch.
      rewrite bool_decide_eq_true_2 in Hch by done. congruence. }
    split; [done |]. rewrite andb_false_r in Eo. subst o.
    by eapply to_db_dict_loop_stored.
Qed.

(** A post whose [name] was explicitly set to [None]. *)
Definition cleared_post : Instance :=
  mkInstance "" None {["name" := VNone]} {["name"]} ∅.

Lemma to_db_dict_inclusion_witness :
  to_db_dict Post cleared_post (mkDumpOptions true true) = Ok {["name" := VNone]}
  ∧ ∃ v, get_value name_field (getattr cleared_post "name") (mkDumpOptions true true) = Ok v
      ∧ is_Some (({["name" := VNone]} : gmap string value) !! "name").
Proof.
  split; [reflexivity |].
  destruct (to_db_dict_inclusion Post cleared_post (mkDumpOptions true true)
              {["name" := VNone]} name_field true Post_ok eq_refl
              ltac:(right; left) eq_refl eq_refl eq_refl) as (v & Hv & _ & _ & H).
  exists v. split; [exact Hv |].
  apply H. vm_compute. reflexivity.
Defined.

(** C9. Every column of the result of [to_db_dict] is the column of a
    declared field that is not an identifier field, or is one with
    [include_in_document]; so the column of an identifier field without
    [include_in_document] is not in the result, unless another kind of field
    is stored under that very column. *)
Theorem to_db_dict_skips_id (meta : Meta) (self : Instance) (dump_options : DumpOptions)
    (result : gmap string value) :
  Meta_ok meta →
  to_db_dict meta self dump_options = Ok result →
  (∀ c v, result !! c = Some v →
     ∃ f, f ∈ field_list meta ∧ db_column_name f = c
       ∧ (is_IDField f = true → include_in_document_of f = true))
  ∧ (∀ f, f ∈ field_list meta →
       is_IDField f = true → include_in_document_of f = false →
       (∀ g, g ∈ field_list meta → db_column_name g = db_column_name f →
          is_IDField g = true ∧ include_in_document_of g = false) →
       result !! db_column_name f = None).
Proof.
  intros _ Hres. unfold to_db_dict in Hres.
  assert (∀ c v, result !! c = Some v →
     ∃ f, f ∈ field_list meta ∧ db_column_name f = c
       ∧ (is_IDField f = true → include_in_document_of f = true)) as Hcols.
  { intros c v Hc.
    destruct (to_db_dict_loop_origin _ _ _ _ _ _ _ _ Hres Hc)
      as [Hacc | (f & Hin & Hf & Hd)]; [by rewrite lookup_empty in Hacc |].
    exists f. split; [done | split; [done |]].
    intros Hid. unfold dump_field in Hd. rewrite Hid in Hd. simpl in Hd.
    by destruct (include_in_document_of f). }
  split; [exact Hcols |].
  intros f Hin Hid Hinc Hothers.
  destruct (result !! db_column_name f) as [v|] eqn:E; [| done].
  destruct (Hcols _ _ E) as (g & Hg & Hcol & Hginc).
  destruct (Hothers g Hg Hcol) as [Hgid Hgno]. rewrite (Hginc Hgid) in Hgno. done.
Qed.

(** A saved user: the identifier attribute holds the document id. *)
Definition saved_user : Instance :=
  mkInstance "" (Some "users/u1") {["id" := VStr "u1"; "name" := VStr "Azeem"]}
    {["id"; "name"]} ∅.

Lemma to_db_dict_skips_id_witness :
  to_db_dict User saved_user DumpOptions_default = Ok {["name" := VStr "Azeem"]}
  ∧ ({["name" := VStr "Azeem"]} : gmap string value) !! "id" = None.
Proof.
  split; [reflexivity |].
  apply (proj2 (to_db_dict_skips_id User saved_user DumpOptions_default
                  {["name" := VStr "Azeem"]} User_ok eq_refl) id_field);
    [left | reflexivity | reflexivity |].
  intros g Hg Hcol. cbn in Hg.
  apply elem_of_cons in Hg as [-> | Hg]; [done |].
  apply elem_of_cons in Hg as [-> | Hg]; [done |].
  by apply elem_of_nil in Hg.
Defined.

(** ** [populate_from_doc_dict] *)

(** The key under which [populate_from_doc_dict] looks a field up. *)
Definition field_name_in_dict (by_column_name : bool) (field : Field) : string :=
  if by_column_name then db_column_name field else name field.

(** [set(doc_dict) - set(self._meta.field_list)] *)
Definition unknown_fields (meta : Meta) (doc_dict : gmap string value) : gset string :=
  dom doc_dict ∖ declared_names meta.

(** [chain(self._meta.field_list.values(), new_extra_fields)] *)
Definition load_chain (meta : Meta) (set_iter : gset string → list string)
    (doc_dict : gmap string value) : list Field :=
  field_list meta
  ++ omap (get_field_by_column_name meta) (set_iter (unknown_fields meta doc_dict)).

(** The assignment [populate_from_doc_dict] makes for a field it loads. *)
Definition assign (meta : Meta) (stored : bool) (self : Instance) (k : string)
    (v : value) : Instance :=
  if stored then _set_orig_attr meta self k v else __setattr__ meta self k v.

Section Populate.

Context (meta : Meta) (set_iter : gset string → list string).
Context (doc_dict : gmap string value) (stored merge by_column_name : bool).

Lemma populate_step_inv self field self' :
  populate_step meta doc_dict stored merge by_column_name self field = Ok self' →
  (self' = self ∧ field_name_in_dict by_column_name field ∉ dom doc_dict)
  ∨ (∃ v, self' = assign meta stored self (name field) v
       ∧ (field_name_in_dict by_column_name field ∈ dom doc_dict
          ∨ (merge = false ∧ getattr self (name field) ≠ VNone))).
Proof.
  unfold populate_step, assign. fold (field_name_in_dict by_column_name field).
  destruct (bool_decide _) eqn:Hin; simpl.
  - apply bool_decide_eq_true in Hin.
    destruct (field_value _ _ _) as [v|e]; simpl; [| done].
    intros H. right. exists v. split; [by destruct stored; injection H | by left].
  - apply bool_decide_eq_false in Hin.
    destruct (negb merge && _) eqn:Hm.
    + apply andb_true_iff in Hm as [Hm Hv].
      destruct (field_value _ _ _) as [v|e]; simpl; [| done].
      intros H. right. exists v. split; [by destruct stored; injection H |].
      right. split; [by destruct merge |].
      intros E. rewrite E in Hv. done.
    + intros [= <-]. by left.
Qed.


Lemma assign_parent self k v : parent (assign meta stored self k v) = parent self.
Proof.
  unfold assign, _set_orig_attr, __setattr__.
  by destruct stored, (declared meta k), (String.eqb k "_id").
Qed.

Lemma assign_attrs self k v :
  attrs (assign meta stored self k v) = <[k := v]> (attrs self).
Proof.
  unfold assign, _set_orig_attr, __setattr__.
  by destruct stored, (declared meta k), (String.eqb k "_id").
Qed.

Lemma assign_extra_fields self k v :
  _extra_fields (assign meta stored self k v) =
    if stored && negb (String.eqb k "_id") && negb (declared meta k)
    then {[k]} ∪ _extra_fields self else _extra_fields self.
Proof.
  unfold assign, _set_orig_attr, __setattr__.
  by destruct stored, (declared meta k), (String.eqb k "_id").
Qed.

Lemma assign_field_changed self k v :
  _field_changed (assign meta stored self k v) =
    if negb stored && declared meta k
    then {[k]} ∪ _field_changed self else _field_changed self.
Proof.
  unfold assign, _set_orig_attr, __setattr__.
  by destruct stored, (declared meta k), (String.eqb k "_id").
Qed.



Lemma populate_from_doc_dict_inv self self' :
  populate_from_doc_dict meta set_iter self doc_dict stored merge by_column_name
  = Ok self' →
  ∃ s1 s2,
    (if merge then s1 = self
     else ∃ s0,
       for_each delattr (set_iter (_extra_fields self ∖ declared_names meta)) self = Ok s0
       ∧ s1 = set__extra_fields s0 ∅)
    ∧ (by_column_name = true ∨ unknown_fields meta doc_dict = ∅)
    ∧ for_each (populate_step meta doc_dict stored merge by_column_name)
        (load_chain meta set_iter doc_dict) s1 = Ok s2
    ∧ self' = if negb merge && stored then set__field_changed s2 ∅ else s2.
Proof.
  unfold populate_from_doc_dict.
  fold (unknown_fields meta doc_dict). fold (load_chain meta set_iter doc_dict).
  set (first := if negb merge then _ else _).
  destruct first as [s1|e] eqn:Hfirst; simpl; [| done].
  destruct (negb (bool_decide _) && negb by_column_name) eqn:Hstrict; [done |].
  destruct (for_each _ (load_chain _ _ _) s1) as [s2|e] eqn:Hloop; simpl; [| done].
  intros Hend. exists s1, s2. split; [| split; [| split; [done |]]].
  - subst first. destruct merge; simpl in Hfirst; [by injection Hfirst |].
    destruct (for_each delattr _ self) as [s0|e]; simpl in Hfirst; [| done].
    injection Hfirst as <-. eauto.
  - apply andb_false_iff in Hstrict as [H | H].
    + right. apply negb_false_iff, bool_decide_eq_true in H. exact H.
    + left. by apply negb_false_iff.
  - by destruct (negb merge && stored); injection Hend.
Qed.

End Populate.

(** The loop of a merge ([merge=True]). *)
Section Merge.

Context (meta : Meta) (doc_dict : gmap string value) (stored by_column_name : bool).




End Merge.


(** A user loaded with one extra column. *)
Definition user_with_extra : Instance :=
  mkInstance "" None {["name" := VStr "Azeem"; "nick" := VStr "az"]} {["name"]} {["nick"]}.





(** ** A stored load followed by a dump of the changes *)

Lemma dump_field_ignore_unchanged meta self dump_options f v :
  ignore_unchanged dump_options = true →
  dump_field meta self dump_options f = Ok (Some v) →
  _is_field_unchanged meta self (name f) = Ok true.
Proof.
  intros Hopt. unfold dump_field. rewrite Hopt.
  destruct (_ && _); [done |].
  destruct (_is_field_unchanged _ _ _) as [[|]|e]; simpl; done.
Qed.

(** With nothing marked as changed, the change predicate holds only of the
    fields that are exempt from change detection. *)
Lemma _is_field_unchanged_exempt meta self f :
  _field_changed self = ∅ →
  lookup_field meta (name f) = Some f →
  _is_field_unchanged meta self (name f) = Ok true →
  (is_composite f = true ∧ getattr self (name f) ≠ VNone)
  ∨ is_auto_update f = true.
Proof.
  intros Hc Hf. unfold _is_field_unchanged. rewrite Hc, Hf.
  rewrite bool_decide_eq_false_2 by set_solver.
  destruct (getattr self (name f)) eqn:Hv; simpl;
    destruct (is_composite f), (is_auto_update f); simpl; intros H;
    try discriminate H; try (by right); by left.
Qed.

(** C2, as amended. After a stored load that replaces the state,
    [_field_changed] is empty, and the columns [to_db_dict] returns under
    [ignore_unchanged] are those of fields exempt from change detection: maps,
    lists and nested models holding a value, and auto-updating timestamps.  The
    result is empty for a schema without such fields. *)
Theorem stored_load_then_dump (meta : Meta) (set_iter : gset string → list string)
    (self : Instance) (doc_dict : gmap string value) (by_column_name : bool)
    (self' : Instance) :
  Meta_ok meta →
  populate_from_doc_dict meta set_iter self doc_dict true false by_column_name
  = Ok self' →
  _field_changed self' = ∅
  ∧ ∀ dump_options result,
      ignore_unchanged dump_options = true →
      to_db_dict meta self' dump_options = Ok result →
      (∀ c v, result !! c = Some v →
         ∃ f, f ∈ field_list meta ∧ db_column_name f = c
           ∧ ((is_composite f = true ∧ getattr self' (name f) ≠ VNone)
              ∨ is_auto_update f = true))
      ∧ ((∀ f, f ∈ field_list meta →
            is_composite f = false ∧ is_auto_update f = false) →
         result = ∅).
Proof.
  intros Hok H.
  assert (_field_changed self' = ∅) as Hc.
  { by apply populate_from_doc_dict_inv in H as (s1 & s2 & _ & _ & _ & ->). }
  split; [exact Hc |]. intros dump_options result Hopt Hres.
  assert (∀ c v, result !! c = Some v →
         ∃ f, f ∈ field_list meta ∧ db_column_name f = c
           ∧ ((is_composite f = true ∧ getattr self' (name f) ≠ VNone)
              ∨ is_auto_update f = true)) as Hcols.
  { intros c v Hcv. unfold to_db_dict in Hres.
    destruct (to_db_dict_loop_origin _ _ _ _ _ _ _ _ Hres Hcv)
      as [Hacc | (f & Hin & Hf & Hd)]; [by rewrite lookup_empty in Hacc |].
    exists f. split; [done | split; [done |]].
    apply (_is_field_unchanged_exempt meta); [done | |].
    - apply lookup_field_declared; [apply Hok | done].
    - by eapply dump_field_ignore_unchanged. }
  split; [exact Hcols |].
  intros Hplain. apply map_eq. intros c. rewrite lookup_empty.
  destruct (result !! c) as [v|] eqn:E; [| done].
  destruct (Hcols _ _ E) as (f & Hin & _ & [[Hcomp _] | Hauto]);
    destruct (Hplain f Hin); congruence.
Qed.

Definition azeem_doc : gmap string value := {["name" := VStr "Azeem"]}.

Definition stored_user : Instance :=
  mkInstance "" None {["name" := VStr "Azeem"]} ∅ ∅.

Lemma stored_load_then_dump_witness :
  populate_from_doc_dict User elements (set__field_changed unsaved {["name"]}) azeem_doc
    true false false = Ok stored_user
  ∧ _field_changed stored_user = ∅
  ∧ to_db_dict User stored_user (mkDumpOptions true false) = Ok ∅.
Proof.
  assert (populate_from_doc_dict User elements (set__field_changed unsaved {["name"]})
            azeem_doc true false false = Ok stored_user) as H
    by (vm_compute; reflexivity).
  split; [exact H |].
  destruct (stored_load_then_dump User elements _ azeem_doc false stored_user User_ok H)
    as [Hc _].
  split; [exact Hc | vm_compute; reflexivity].
Defined.

(** The auto-updating timestamp of a loaded event is dumped although nothing
    was assigned; the name is not. *)
Example auto_update_is_dumped :
  to_db_dict Event
    (mkInstance "" None {["name" := VStr "launch"; "updated" := VStr "t0"]} ∅ ∅)
    (mkDumpOptions true true)
  = Ok {["updated" := VStr "t0"]}.
Proof. vm_compute. reflexivity. Qed.

Definition tags_doc : gmap string value := {["tags" := VList [VNum 1]]}.

Definition stored_post : Instance :=
  mkInstance "" None {["tags" := VList [VNum 1]]} ∅ ∅.

(** C2, as stated, fails: right after a stored load of a document with a
    list, the list counts as changed and is sent again, with the value that was
    loaded; a fresh instance sends nothing. *)
Lemma stored_load_resends_list :
  populate_from_doc_dict Post elements unsaved tags_doc true false false = Ok stored_post
  ∧ _field_changed stored_post = ∅
  ∧ _is_field_unchanged Post stored_post "tags" = Ok true
  ∧ to_db_dict Post stored_post (mkDumpOptions true false) = Ok tags_doc
  ∧ tags_doc !! "tags" = Some (VList [VNum 1])
  ∧ to_db_dict Post unsaved (mkDumpOptions true false) = Ok ∅.
Proof.
  repeat split; vm_compute; reflexivity.
Qed.

(** ** Unknown fields *)

(** [set_iter] lists the elements of a set, each once, in some order. *)
Definition iterates_sets (set_iter : gset string → list string) : Prop :=
  ∀ s, set_iter s ≡ₚ elements s.

Lemma iterates_sets_elements : iterates_sets elements.
Proof. by intros s. Qed.

Lemma iterates_sets_elem set_iter s x :
  iterates_sets set_iter → x ∈ set_iter s ↔ x ∈ s.
Proof. intros H. by rewrite (H s), elem_of_elements. Qed.


Lemma delattr_present self k :
  is_Some (attrs self !! k) →
  delattr self k = Ok (set_attrs self (delete k (attrs self))).
Proof. intros [v H]. unfold delattr. by rewrite H. Qed.

Lemma delattr_absent self k :
  attrs self !! k = None → delattr self k = Raise AttributeError.
Proof. intros H. unfold delattr. by rewrite H. Qed.


Lemma delattr_loop_raises l self e :
  for_each delattr l self = Raise e → e = AttributeError.
Proof.
  revert self. induction l as [|k l IHl]; intros self; simpl; [done |].
  destruct (attrs self !! k) as [v|] eqn:Hk.
  - rewrite delattr_present by eauto. simpl. apply IHl.
  - rewrite delattr_absent by done. simpl. congruence.
Qed.

Section Unknown.

Context (meta : Meta) (set_iter : gset string → list string).
Context (doc_dict : gmap string value) (stored merge by_column_name : bool).




(** The first stage of [populate_from_doc_dict]. *)
Definition drop_extra_fields (self : Instance) : res Instance :=
  if negb merge then
    self ← for_each delattr (set_iter (_extra_fields self ∖ declared_names meta)) self;
    Ok (set__extra_fields self ∅)
  else Ok self.


Lemma drop_extra_fields_raises self e :
  drop_extra_fields self = Raise e → e = AttributeError.
Proof.
  unfold drop_extra_fields. destruct (negb merge); [| done].
  destruct (for_each delattr _ self) as [s0|e'] eqn:H; simpl; [done |].
  intros [= <-]. by eapply delattr_loop_raises.
Qed.

Lemma populate_from_doc_dict_stages self :
  populate_from_doc_dict meta set_iter self doc_dict stored merge by_column_name =
    s1 ← drop_extra_fields self;
    if negb (bool_decide (unknown_fields meta doc_dict = ∅)) && negb by_column_name
    then Raise (NotImplementedError (unknown_fields meta doc_dict))
    else
      s2 ← for_each (populate_step meta doc_dict stored merge by_column_name)
             (load_chain meta set_iter doc_dict) s1;
      if negb merge && stored then Ok (set__field_changed s2 ∅) else Ok s2.
Proof. reflexivity. Qed.

End Unknown.







(** ** Construction *)

Lemma declared_field meta f : f ∈ field_list meta → declared meta (name f) = true.
Proof.
  intros H. unfold declared. apply bool_decide_eq_true. by apply list_elem_of_fmap_2.
Qed.

Section Init.

Context (meta : Meta) (kwargs : list (string * value)).

Lemma init_nested_step_inv self f self' :
  init_nested_step meta kwargs self f = Ok self' →
  self' = self ∨ ∃ v, self' = __setattr__ meta self (name f) v.
Proof.
  unfold init_nested_step. destruct (is_NestedModelField f); [| by left; congruence].
  destruct (negb _).
  - destruct (nested_model f) as [v|e]; simpl; [| done].
    intros [= <-]. right. eauto.
  - destruct (kwargs_get kwargs (name f)); try (by left; congruence).
    destruct (nested_model_from_dict f d) as [v|e]; simpl; [| done].
    intros [= <-]. right. eauto.
Qed.

(** A nested field that was not passed is assigned a new nested instance. *)
Lemma init_nested_step_missing self f self' :
  init_nested_step meta kwargs self f = Ok self' →
  is_NestedModelField f = true → name f ∉ kwargs.*1 →
  ∃ v, nested_model f = Ok v ∧ self' = __setattr__ meta self (name f) v.
Proof.
  unfold init_nested_step. intros H Hn Hk. revert H.
  rewrite Hn, bool_decide_eq_false_2 by done. simpl.
  destruct (nested_model f) as [v|e]; simpl; [| done].
  intros [= <-]. eauto.
Qed.

Lemma init_loop_keeps l self self' :
  for_each (init_nested_step meta kwargs) l self = Ok self' →
  _field_changed self ⊆ _field_changed self'
  ∧ ∀ x, x ∉ name <$> l → attrs self' !! x = attrs self !! x.
Proof.
  revert self. induction l as [|g l IHl]; intros self H; simpl in H.
  - by injection H as <-.
  - destruct (init_nested_step meta kwargs self g) as [s1|e] eqn:Hs; simpl in H; [| done].
    destruct (IHl _ H) as [Hc Ha].
    apply init_nested_step_inv in Hs as [-> | [v ->]].
    + split; [done |]. intros x Hx. apply Ha. rewrite fmap_cons in Hx.
      by apply not_elem_of_cons in Hx as [_ Hx].
    + split.
      * etrans; [| exact Hc]. unfold __setattr__.
        destruct (declared meta (name g)); simpl; set_solver.
      * intros x Hx. rewrite fmap_cons in Hx. apply not_elem_of_cons in Hx as [Hg Hx].
        rewrite (Ha x Hx). unfold __setattr__.
        destruct (declared meta (name g)); simpl; by rewrite lookup_insert_ne.
Qed.

Lemma init_loop_missing l self self' f :
  for_each (init_nested_step meta kwargs) l self = Ok self' →
  NoDup (name <$> l) → f ∈ l → declared meta (name f) = true →
  is_NestedModelField f = true → name f ∉ kwargs.*1 →
  ∃ v, nested_model f = Ok v
    ∧ attrs self' !! name f = Some v
    ∧ name f ∈ _field_changed self'.
Proof.
  revert self. induction l as [|g l IHl]; intros self H Hnd Hin Hdecl Hnest Hk;
    simpl in H.
  - by apply elem_of_nil in Hin.
  - destruct (init_nested_step meta kwargs self g) as [s1|e] eqn:Hs; simpl in H; [| done].
    rewrite fmap_cons in Hnd. apply NoDup_cons in Hnd as [Hg Hnd].
    apply elem_of_cons in Hin as [-> | Hin]; [| by eapply IHl].
    destruct (init_nested_step_missing _ _ _ Hs Hnest Hk) as (v & Hv & ->).
    destruct (init_loop_keeps _ _ _ H) as [Hc Ha].
    exists v. split; [done | split].
    + rewrite (Ha _ Hg). unfold __setattr__. rewrite Hdecl. simpl.
      by rewrite lookup_insert_eq.
    + apply Hc. unfold __setattr__. rewrite Hdecl. simpl. set_solver.
Qed.

End Init.




(** * The rest of [Model] *)

(** What [save] hands to the manager's [create]: the instance, the
    arguments it passes on, and the field values as keyword arguments. *)
Inductive create_call :=
| Collection_create (mutable_instance : Instance)
    (transaction batch merge no_return : value) (fields : gmap string value).

Section ModelRest.

Context (meta : Meta).
(** [fireo.utils.utils.get_id] *)
Context (get_id : string → value).

(** The body of the loop of [_get_fields] for one field. *)
Definition _get_fields_step (self : Instance)
    (ignore_unchanged ignore_default_none : bool)
    (field_list : gmap string value) (f : Field) : res (gmap string value) :=
  let v := getattr self (name f) in
  field_changed ← _is_field_unchanged meta self (name f);
  if (negb ignore_unchanged || field_changed)
     && (negb ignore_default_none || field_changed || negb (is_none v))
  then Ok (<[name f := v]> field_list)
  else Ok field_list.

Definition _get_fields (self : Instance)
    (ignore_unchanged ignore_default_none : bool) : res (gmap string value) :=
  for_each (_get_fields_step self ignore_unchanged ignore_default_none)
    (field_list meta) ∅.

Definition save (self : Instance) (transaction batch merge no_return : value)
    : res create_call :=
  fields ← _get_fields self false true;
  Ok (Collection_create self transaction batch merge no_return fields).

Definition upsert (self : Instance) (transaction batch : value) : res create_call :=
  save self transaction batch (VBool true) (VBool false).

(** [to_dict]; reading [self.key] twice may set the identifier attribute, so
    the instance is returned with the dict. *)
Definition to_dict (self : Instance) : res (gmap string value * Instance) :=
  model_dict ← to_db_dict meta self DumpOptions_default;
  let '(id_field_name, _) := meta_id meta in
  '(k, self) ← key meta self;
  let model_dict := <[id_field_name := get_id k]> model_dict in
  '(k, self) ← key meta self;
  Ok (<["key" := VStr k]> model_dict, self).

(** The [document_path] property; [str + None] raises [TypeError]. *)
Definition document_path (self : Instance) : res (string * Instance) :=
  '(v, self) ← _id meta self;
  match v with
  | VStr i =>
      let doc_path := collection_name meta +:+ "/" +:+ i in
      if String.eqb (parent self) "" then Ok (doc_path, self)
      else Ok (parent self +:+ "/" +:+ doc_path, self)
  | _ => Raise TypeError
  end.

End ModelRest.

(** ** Loops that fill a dict, one entry per item *)

Section FillLoop.

Context {A : Type} (key_of : A → string) (decide_item : A → res (option value)).

Definition fill_step (acc : gmap string value) (x : A) : res (gmap string value) :=
  o ← decide_item x;
  Ok (match o with Some v => <[key_of x := v]> acc | None => acc end).

Lemma fill_loop_nil acc : for_each fill_step [] acc = Ok acc.
Proof. reflexivity. Qed.

Lemma fill_loop_cons x l acc :
  for_each fill_step (x :: l) acc =
    match decide_item x with
    | Ok (Some v) => for_each fill_step l (<[key_of x := v]> acc)
    | Ok None => for_each fill_step l acc
    | Raise e => Raise e
    end.
Proof.
  change (for_each fill_step (x :: l) acc)
    with (fill_step acc x ≫= for_each fill_step l).
  unfold fill_step. by destruct (decide_item x) as [[v|]|e].
Qed.

Lemma fill_loop_returns l acc :
  (∀ x, x ∈ l → ∃ o, decide_item x = Ok o) →
  ∃ result, for_each fill_step l acc = Ok result.
Proof.
  revert acc. induction l as [|x l IHl]; intros acc Hl; [by exists acc |].
  rewrite fill_loop_cons. destruct (Hl x) as [o ->]; [left |].
  destruct o; apply IHl; intros y Hy; apply Hl; by right.
Qed.

(** The loop raises what the first failing item raises. *)
Lemma fill_loop_raises l acc e :
  for_each fill_step l acc = Raise e →
  ∃ l1 x l2, l = l1 ++ x :: l2
    ∧ (∀ y, y ∈ l1 → ∃ o, decide_item y = Ok o)
    ∧ decide_item x = Raise e.
Proof.
  revert acc. induction l as [|x l IHl]; intros acc; [done |].
  rewrite fill_loop_cons. destruct (decide_item x) as [o|e'] eqn:Hx.
  - intros H.
    assert (∃ acc', for_each fill_step l acc' = Raise e) as [acc' H']
      by (destruct o; eauto).
    destruct (IHl _ H') as (l1 & y & l2 & -> & Hl1 & Hy).
    exists (x :: l1), y, l2. split; [done | split; [| done]].
    intros z [-> | Hz]%elem_of_cons; eauto.
  - intros [= <-]. exists [], x, l. split; [done | split; [| done]].
    intros y Hy. by apply elem_of_nil in Hy.
Qed.

Lemma fill_loop_frame l acc result k :
  for_each fill_step l acc = Ok result →
  k ∉ key_of <$> l → result !! k = acc !! k.
Proof.
  revert acc. induction l as [|x l IHl]; intros acc H Hk.
  - by injection H as <-.
  - rewrite fill_loop_cons in H.
    rewrite fmap_cons in Hk. apply not_elem_of_cons in Hk as [Hx Hk].
    destruct (decide_item x) as [[v|]|e]; [| by apply IHl | done].
    rewrite (IHl _ H Hk). by rewrite lookup_insert_ne.
Qed.

Lemma fill_loop_exact l acc result x o :
  for_each fill_step l acc = Ok result →
  NoDup (key_of <$> l) → x ∈ l → decide_item x = Ok o →
  result !! key_of x = match o with Some v => Some v | None => acc !! key_of x end.
Proof.
  revert acc. induction l as [|y l IHl]; intros acc H Hnd Hin Hx.
  - by apply elem_of_nil in Hin.
  - rewrite fill_loop_cons in H.
    rewrite fmap_cons in Hnd. apply NoDup_cons in Hnd as [Hy' Hnd].
    apply elem_of_cons in Hin as [-> | Hin].
    + rewrite Hx in H.
      destruct o as [v|]; rewrite (fill_loop_frame _ _ _ _ H Hy'); [| done].
      by rewrite lookup_insert_eq.
    + assert (key_of y ≠ key_of x) as Hne.
      { intros E. apply Hy'. rewrite E. by apply list_elem_of_fmap_2. }
      destruct (decide_item y) as [[v|]|e]; [| by apply IHl | done].
      rewrite (IHl _ H Hnd Hin Hx). destruct o; [done |].
      by rewrite lookup_insert_ne.
Qed.

(** The keys of the result come from the items. *)
Lemma fill_loop_origin l acc result k v :
  for_each fill_step l acc = Ok result →
  result !! k = Some v →
  acc !! k = Some v ∨ ∃ x, x ∈ l ∧ key_of x = k ∧ decide_item x = Ok (Some v).
Proof.
  revert acc. induction l as [|y l IHl]; intros acc H Hk.
  - injection H as <-. by left.
  - rewrite fill_loop_cons in H.
    destruct (decide_item y) as [[w|]|e] eqn:Hy; [| | done].
    + destruct (IHl _ H Hk) as [Hacc | (x & Hx & Hkx & Hd)].
      * destruct (decide (key_of y = k)) as [E | E].
        -- rewrite E, lookup_insert_eq in Hacc. injection Hacc as ->.
           right. exists y. split; [left | done].
        -- rewrite lookup_insert_ne in Hacc by done. by left.
      * right. exists x. split; [by right | done].
    + destruct (IHl _ H Hk) as [Hacc | (x & Hx & Hkx & Hd)]; [by left |].
      right. exists x. split; [by right | done].
Qed.

End FillLoop.

Lemma for_each_ext {A S} (f g : S → A → res S) l s :
  (∀ s x, f s x = g s x) → for_each f l s = for_each g l s.
Proof.
  intros H. revert s. induction l as [|x l IHl]; intros s; simpl; [done |].
  rewrite H. destruct (g s x); simpl; [apply IHl | done].
Qed.

(** ** Serialisation: errors and [_get_fields] *)

(** The change predicate is defined on every declared field. *)
Lemma _is_field_unchanged_declared meta self f :
  f ∈ field_list meta → ∃ b, _is_field_unchanged meta self (name f) = Ok b.
Proof.
  intros Hin. unfold _is_field_unchanged. destruct (bool_decide _); [eauto |].
  destruct (lookup_field meta (name f)) as [g|] eqn:Hg.
  - destruct (_ && _); [eauto |]. destruct (is_auto_update g); eauto.
  - unfold lookup_field in Hg. apply list_elem_of_In in Hin.
    apply (find_none _ _ Hg) in Hin. by rewrite String.eqb_refl in Hin.
Qed.

Lemma to_db_dict_fill meta self dump_options :
  to_db_dict meta self dump_options =
    for_each (fill_step db_column_name (dump_field meta self dump_options))
      (field_list meta) ∅.
Proof.
  unfold to_db_dict. apply for_each_ext. intros acc f.
  by rewrite to_db_dict_step_dump.
Qed.

(** What [dump_field] raises is the wrapped exception of the encoder. *)
Lemma dump_field_raises meta self dump_options f e :
  f ∈ field_list meta →
  dump_field meta self dump_options f = Raise e →
  ∃ cause, e = ModelSerializingWrappedError self [name f] cause
    ∧ get_value f (getattr self (name f)) dump_options = Raise cause.
Proof.
  intros Hin. unfold dump_field. destruct (_ && _); [done |].
  destruct (_is_field_unchanged_declared meta self f Hin) as [b ->]. simpl.
  destruct (_ && _); [done |].
  destruct (get_value f _ _) as [v|cause]; [by destruct (_ || _) |].
  intros [= <-]. eauto.
Qed.

(** X1. Whatever [to_db_dict] raises is a [ModelSerializingWrappedError]
    that carries the instance, the name of the first declared field whose
    encoder raised, and what that encoder raised; the fields before it were
    processed without raising.  When no encoder raises, [to_db_dict] returns. *)
Theorem to_db_dict_wraps_errors (meta : Meta) (self : Instance) (dump_options : DumpOptions) :
  Meta_ok meta →
  (∀ e, to_db_dict meta self dump_options = Raise e →
     ∃ l1 f l2 cause,
       field_list meta = l1 ++ f :: l2
       ∧ e = ModelSerializingWrappedError self [name f] cause
       ∧ get_value f (getattr self (name f)) dump_options = Raise cause
       ∧ ∀ g, g ∈ l1 → ∃ o, dump_field meta self dump_options g = Ok o)
  ∧ ((∀ f, f ∈ field_list meta →
        ∃ v, get_value f (getattr self (name f)) dump_options = Ok v) →
     ∃ result, to_db_dict meta self dump_options = Ok result).
Proof.
  intros _. rewrite to_db_dict_fill. split.
  - intros e H. apply fill_loop_raises in H as (l1 & f & l2 & Hl & Hl1 & Hf).
    destruct (dump_field_raises meta self dump_options f e) as (cause & -> & Hc);
      [rewrite Hl; apply elem_of_app; right; left | done |].
    by exists l1, f, l2, cause.
  - intros Henc. apply fill_loop_returns. intros f Hin.
    unfold dump_field. destruct (_ && _); [eauto |].
    destruct (_is_field_unchanged_declared meta self f Hin) as [b ->]. simpl.
    destruct (_ && _); [eauto |].
    destruct (Henc f Hin) as [v ->]. destruct (_ || _); eauto.
Qed.

(** A descriptor whose encoder rejects every value. *)
Definition failing_field : Field :=
  mkField "age" "age" PlainField
    (λ _ _, Raise (FieldException "invalid")) (λ v _, Ok v)
    (Raise (FieldException "not nested")) (λ _, Raise (FieldException "not nested")).

Definition Person : Meta :=
  mkMeta [id_field; name_field; failing_field] ("id", id_field) false "people"
    adhoc_registry.

Lemma Person_ok : Meta_ok Person.
Proof. solve_Meta_ok. Qed.

Lemma to_db_dict_wraps_errors_witness :
  to_db_dict Person unsaved DumpOptions_default
  = Raise (ModelSerializingWrappedError unsaved ["age"] (FieldException "invalid"))
  ∧ ∃ result, to_db_dict User saved_user DumpOptions_default = Ok result.
Proof.
  split; [vm_compute; reflexivity |].
  apply (to_db_dict_wraps_errors User saved_user DumpOptions_default User_ok).
  intros f Hf. cbn in Hf.
  repeat (apply elem_of_cons in Hf as [-> | Hf]; [by eexists |]).
  by apply elem_of_nil in Hf.
Defined.

(** What [_get_fields] decides for one field. *)
Definition get_fields_entry (meta : Meta) (self : Instance)
    (ignore_unchanged ignore_default_none : bool) (f : Field) : res (option value) :=
  field_changed ← _is_field_unchanged meta self (name f);
  if (negb ignore_unchanged || field_changed)
     && (negb ignore_default_none || field_changed
         || negb (is_none (getattr self (name f))))
  then Ok (Some (getattr self (name f)))
  else Ok None.

Lemma _get_fields_fill meta self ignore_unchanged ignore_default_none :
  _get_fields meta self ignore_unchanged ignore_default_none =
    for_each (fill_step name
                (get_fields_entry meta self ignore_unchanged ignore_default_none))
      (field_list meta) ∅.
Proof.
  unfold _get_fields. apply for_each_ext. intros acc f.
  unfold _get_fields_step, fill_step, get_fields_entry.
  destruct (_is_field_unchanged meta self (name f)) as [b|e]; simpl; [| done].
  by destruct (_ && _).
Qed.

Lemma declared_false_not_name meta k :
  declared meta k = false → k ∉ name <$> field_list meta.
Proof. unfold declared. by intros H%bool_decide_eq_false. Qed.

(** The entries of the result of [_get_fields]. *)
Lemma _get_fields_entries (meta : Meta) (self : Instance)
    (ignore_unchanged ignore_default_none : bool) :
  Meta_ok meta →
  ∃ fields,
    _get_fields meta self ignore_unchanged ignore_default_none = Ok fields
    ∧ (∀ f, f ∈ field_list meta →
         ∃ field_changed,
           _is_field_unchanged meta self (name f) = Ok field_changed
           ∧ fields !! name f =
               if (negb ignore_unchanged || field_changed)
                  && (negb ignore_default_none || field_changed
                      || negb (is_none (getattr self (name f))))
               then Some (getattr self (name f)) else None)
    ∧ (∀ k, declared meta k = false → fields !! k = None).
Proof.
  intros Hok. rewrite _get_fields_fill.
  destruct (fill_loop_returns name
              (get_fields_entry meta self ignore_unchanged ignore_default_none)
              (field_list meta) ∅) as [fields Hfields].
  { intros f Hin. unfold get_fields_entry.
    destruct (_is_field_unchanged_declared meta self f Hin) as [b ->]. simpl.
    destruct (_ && _); eauto. }
  assert (∀ f, f ∈ field_list meta →
         ∃ field_changed,
           _is_field_unchanged meta self (name f) = Ok field_changed
           ∧ fields !! name f =
               if (negb ignore_unchanged || field_changed)
                  && (negb ignore_default_none || field_changed
                      || negb (is_none (getattr self (name f))))
               then Some (getattr self (name f)) else None) as Hdecl.
  { intros f Hin.
    destruct (_is_field_unchanged_declared meta self f Hin) as [b Hb].
    exists b. split; [done |].
    rewrite (fill_loop_exact _ _ _ _ _ f
               (if (negb ignore_unchanged || b)
                   && (negb ignore_default_none || b
                       || negb (is_none (getattr self (name f))))
                then Some (getattr self (name f)) else None)
               Hfields (names_distinct _ Hok) Hin).
    - destruct (_ && _); [done | apply lookup_empty].
    - unfold get_fields_entry. rewrite Hb. simpl. by destruct (_ && _). }
  assert (∀ k, declared meta k = false → fields !! k = None) as Hother.
  { intros k Hk. rewrite (fill_loop_frame _ _ _ _ _ k Hfields); [apply lookup_empty |].
    by apply declared_false_not_name. }
  by exists fields.
Qed.

(** X2. [_get_fields] never raises.  Its result has an entry for a declared
    field, under the name of the field and with the current value of the
    attribute, exactly when the two filters let the field through, and no entry
    under any other name; without filters its keys are the declared names. *)
Theorem _get_fields_spec (meta : Meta) (self : Instance)
    (ignore_unchanged ignore_default_none : bool) :
  Meta_ok meta →
  ∃ fields,
    _get_fields meta self ignore_unchanged ignore_default_none = Ok fields
    ∧ (∀ f, f ∈ field_list meta →
         ∃ field_changed,
           _is_field_unchanged meta self (name f) = Ok field_changed
           ∧ fields !! name f =
               if (negb ignore_unchanged || field_changed)
                  && (negb ignore_default_none || field_changed
                      || negb (is_none (getattr self (name f))))
               then Some (getattr self (name f)) else None)
    ∧ (∀ k, declared meta k = false → fields !! k = None)
    ∧ (ignore_unchanged = false → ignore_default_none = false →
       dom fields = declared_names meta).
Proof.
  intros Hok.
  destruct (_get_fields_entries meta self ignore_unchanged ignore_default_none Hok)
    as (fields & Hfields & Hdecl & Hother).
  exists fields. split; [done | split; [done | split; [done |]]].
  intros Hu Hn. apply set_eq. intros k. rewrite elem_of_dom.
  unfold declared_names. rewrite elem_of_list_to_set. split.
  - intros [v Hv]. destruct (declared meta k) eqn:Hk.
    + by apply bool_decide_eq_true in Hk.
    + rewrite (Hother k Hk) in Hv. done.
  - intros (f & -> & Hin)%list_elem_of_fmap.
    destruct (Hdecl f Hin) as (b & _ & ->). rewrite Hu, Hn. simpl. eauto.
Qed.

Lemma _get_fields_spec_witness :
  _get_fields User user_with_extra false false
  = Ok {["id" := VNone; "name" := VStr "Azeem"]}
  ∧ _get_fields User user_with_extra false true = Ok {["name" := VStr "Azeem"]}
  ∧ ∃ fields, _get_fields User user_with_extra false true = Ok fields
      ∧ fields !! "nick" = None.
Proof.
  split; [vm_compute; reflexivity | split; [vm_compute; reflexivity |]].
  destruct (_get_fields_spec User user_with_extra false true User_ok)
    as (fields & H & _ & Hother & _).
  exists fields. split; [exact H | apply Hother; reflexivity].
Defined.

(** X3. [save] never raises: it hands the unmodified instance to the
    manager's [create] with the fields [_get_fields] selects under
    [ignore_default_none].  The payload has every declared field that is in
    [_field_changed], also when its value is [None]; a declared field whose
    value is [None] and for which the change predicate is false is left out;
    an attribute that is not declared is never sent.  [upsert] sends the same
    payload with [merge=True]. *)
Theorem save_payload (meta : Meta) (self : Instance)
    (transaction batch merge no_return : value) :
  Meta_ok meta →
  ∃ fields,
    save meta self transaction batch merge no_return
    = Ok (Collection_create self transaction batch merge no_return fields)
    ∧ upsert meta self transaction batch
      = Ok (Collection_create self transaction batch (VBool true) (VBool false) fields)
    ∧ (∀ f, f ∈ field_list meta → name f ∈ _field_changed self →
         fields !! name f = Some (getattr self (name f)))
    ∧ (∀ f, f ∈ field_list meta → getattr self (name f) ≠ VNone →
         fields !! name f = Some (getattr self (name f)))
    ∧ (∀ f, f ∈ field_list meta → getattr self (name f) = VNone →
         _is_field_unchanged meta self (name f) = Ok false →
         fields !! name f = None)
    ∧ (∀ k, declared meta k = false → fields !! k = None).
Proof.
  intros Hok.
  destruct (_get_fields_entries meta self false true Hok)
    as (fields & H & Hdecl & Hother).
  exists fields. unfold upsert, save. rewrite H. simpl.
  split; [done | split; [done | split; [| split; [| split; [| done]]]]].
  - intros f Hin Hc. destruct (Hdecl f Hin) as (b & Hb & ->).
    unfold _is_field_unchanged in Hb. rewrite bool_decide_eq_true_2 in Hb by done.
    by injection Hb as <-.
  - intros f Hin Hv. destruct (Hdecl f Hin) as (b & Hb & ->).
    destruct (getattr self (name f)); try done; by destruct b.
  - intros f Hin Hv Hb. destruct (Hdecl f Hin) as (b & Hb' & ->).
    rewrite Hb in Hb'. injection Hb' as <-. by rewrite Hv.
Qed.

Lemma save_payload_witness :
  save User cleared_post VNone VNone VNone (VBool false)
  = Ok (Collection_create cleared_post VNone VNone VNone (VBool false)
          {["name" := VNone]})
  ∧ ∃ fields,
      save User user_with_extra VNone VNone VNone (VBool false)
      = Ok (Collection_create user_with_extra VNone VNone VNone (VBool false) fields)
      ∧ fields !! "name" = Some (VStr "Azeem") ∧ fields !! "nick" = None.
Proof.
  split; [vm_compute; reflexivity |].
  destruct (save_payload User user_with_extra VNone VNone VNone (VBool false) User_ok)
    as (fields & H & _ & Hc & _ & _ & Hother).
  exists fields. split; [exact H | split].
  - apply (Hc name_field); [right; left | vm_compute; reflexivity].
  - apply Hother. reflexivity.
Defined.

(** ** Reading the key *)

(** Reading [_id] leaves the instance as it is, or writes the identifier
    the descriptor supplied for an attribute that was [None]. *)
Lemma _id_state meta self v self' :
  _id meta self = Ok (v, self') →
  self' = self
  ∨ (getattr self (meta_id meta).1 = VNone ∧ v ≠ VNone
     ∧ self' = __setattr__ meta self (meta_id meta).1 v).
Proof.
  unfold _id. destruct (meta_id meta) as [id_name field]. simpl.
  destruct (get_value field _ _) as [w|e]; simpl; [| done].
  intros [= <- <-].
  destruct (getattr self id_name) eqn:Hraw; simpl; try (by left).
  destruct w; simpl; try (by left); right; done.
Qed.

Lemma key_state meta self k self' :
  key meta self = Ok (k, self') →
  self' = self
  ∨ (getattr self (meta_id meta).1 = VNone
     ∧ ∃ v, v ≠ VNone ∧ self' = __setattr__ meta self (meta_id meta).1 v).
Proof.
  assert (compose_key meta self = Ok (k, self') →
    self' = self
    ∨ (getattr self (meta_id meta).1 = VNone
       ∧ ∃ v, v ≠ VNone ∧ self' = __setattr__ meta self (meta_id meta).1 v)) as Hc.
  { unfold compose_key. destruct (_id meta self) as [[v s]|e] eqn:Hid.
    - intros H. assert (s = self') as -> by (destruct v; by injection H).
      apply _id_state in Hid as [-> | (Hraw & Hv & ->)]; [by left | right; eauto].
    - destruct e as [| | | | | | | |[]]; try done; intros [= _ <-]; by left. }
  unfold key. destruct (_key self) as [c|]; [| exact Hc].
  destruct (String.eqb c ""); [exact Hc |]. intros [= _ <-]. by left.
Qed.

(** [key] lets through neither [RequiredField] nor [TypeError]. *)
Lemma key_raises_exception meta self e :
  key meta self = Raise e → ∃ what, e = Propagated (FieldException what).
Proof.
  assert (compose_key meta self = Raise e →
          ∃ what, e = Propagated (FieldException what)) as Hc.
  { unfold compose_key. destruct (_id meta self) as [[v s]|e'] eqn:Hid.
    - by destruct v.
    - destruct (_id_raises _ _ _ Hid) as [fe ->]. destruct fe; try done.
      intros [= <-]. eauto. }
  unfold key. destruct (_key self) as [c|]; [| exact Hc].
  by destruct (String.eqb c "").
Qed.

Lemma __setattr___frame meta self k v :
  parent (__setattr__ meta self k v) = parent self
  ∧ _key (__setattr__ meta self k v) = _key self
  ∧ _extra_fields (__setattr__ meta self k v) = _extra_fields self
  ∧ attrs (__setattr__ meta self k v) = <[k := v]> (attrs self)
  ∧ _field_changed (__setattr__ meta self k v) =
      if declared meta k then {[k]} ∪ _field_changed self else _field_changed self.
Proof. unfold __setattr__. by destruct (declared meta k). Qed.

(** X4. Reading [key] never caches it: [_key], the parent and the tracked
    extra fields are as before.  The instance changes only when the identifier
    attribute is [None] and the descriptor supplies a value, and then only at
    the identifier attribute and its mark in [_field_changed].  Whatever [key]
    raises is an exception of the identifier descriptor other than
    [RequiredField] and [TypeError]. *)
Theorem key_read_effects (meta : Meta) (self : Instance) :
  Meta_ok meta →
  (∀ k self', key meta self = Ok (k, self') →
     _key self' = _key self
     ∧ parent self' = parent self
     ∧ _extra_fields self' = _extra_fields self
     ∧ (getattr self (meta_id meta).1 ≠ VNone → self' = self)
     ∧ (∀ x, x ≠ (meta_id meta).1 →
          attrs self' !! x = attrs self !! x
          ∧ (x ∈ _field_changed self' ↔ x ∈ _field_changed self)))
  ∧ (∀ e, key meta self = Raise e → ∃ what, e = Propagated (FieldException what)).
Proof.
  intros _. split; [| apply key_raises_exception].
  intros k self' H. apply key_state in H as [-> | (Hraw & v & Hv & ->)]; [done |].
  destruct (__setattr___frame meta self (meta_id meta).1 v) as (-> & -> & -> & -> & ->).
  split; [done | split; [done | split; [done | split; [done |]]]].
  intros x Hx. rewrite lookup_insert_ne by done. split; [done |].
  destruct (declared meta _); set_solver.
Qed.

(** An identifier descriptor that generates an id for [None]. *)
Definition generating_id_field : Field :=
  mkField "id" "id" (IDField false)
    (λ v _, match v with VNone => Ok (VStr "generated") | _ => Ok v end)
    (λ v _, Ok v)
    (Raise (FieldException "not nested")) (λ _, Raise (FieldException "not nested")).

Definition Ticket : Meta :=
  mkMeta [generating_id_field; name_field] ("id", generating_id_field) false
    "tickets" adhoc_registry.

Lemma Ticket_ok : Meta_ok Ticket.
Proof. solve_Meta_ok. Qed.

Definition ticket_with_id : Instance :=
  mkInstance "" None {["id" := VStr "generated"]} {["id"]} ∅.

Lemma key_read_effects_witness :
  key Ticket unsaved = Ok ("tickets/generated", ticket_with_id)
  ∧ _key ticket_with_id = _key unsaved
  ∧ key User saved_user = Ok ("users/u1", saved_user).
Proof.
  assert (key Ticket unsaved = Ok ("tickets/generated", ticket_with_id)) as H
    by (vm_compute; reflexivity).
  split; [exact H | split; [| reflexivity]].
  destruct (key_read_effects Ticket unsaved Ticket_ok) as [Hok _].
  exact (proj1 (Hok _ _ H)).
Defined.

(** ** [to_dict], the identifier setter, [document_path], [update] with a key *)

Lemma to_db_dict_raises_wrapped meta self dump_options e :
  to_db_dict meta self dump_options = Raise e →
  ∃ f cause, f ∈ field_list meta ∧ e = ModelSerializingWrappedError self [name f] cause.
Proof.
  rewrite to_db_dict_fill. intros H.
  apply fill_loop_raises in H as (l1 & f & l2 & Hl & _ & Hf).
  assert (f ∈ field_list meta) as Hin by (rewrite Hl; apply elem_of_app; right; left).
  destruct (dump_field_raises meta self dump_options f e Hin Hf) as (cause & -> & _).
  eauto.
Qed.

Lemma key_cached meta self k :
  _key self = Some k → k ≠ "" → key meta self = Ok (k, self).
Proof.
  intros Hk Hne. unfold key. rewrite Hk.
  apply String.eqb_neq in Hne. by rewrite Hne.
Qed.

Lemma id_name_not_key meta : Meta_ok meta → (meta_id meta).1 ≠ "key".
Proof. intros Hok E. pose proof (id_free _ Hok) as H. rewrite E in H. done. Qed.

(** X5. The dict [to_dict] returns holds the key under ["key"] and
    [get_id] of the key under the name of the identifier field, whatever
    [to_db_dict] stored under these two names; its other entries are those of
    [to_db_dict] with the default options.  What it raises is the wrapped error
    of [to_db_dict] or an exception of the identifier descriptor.  With a
    cached key the instance is left as it is. *)
Theorem to_dict_entries (meta : Meta) (get_id : string → value) (self : Instance) :
  Meta_ok meta →
  (∀ d self', to_dict meta get_id self = Ok (d, self') →
     ∃ db k1 s1 k2,
       to_db_dict meta self DumpOptions_default = Ok db
       ∧ key meta self = Ok (k1, s1)
       ∧ key meta s1 = Ok (k2, self')
       ∧ d !! "key" = Some (VStr k2)
       ∧ d !! (meta_id meta).1 = Some (get_id k1)
       ∧ ∀ c, c ≠ "key" → c ≠ (meta_id meta).1 → d !! c = db !! c)
  ∧ (∀ e, to_dict meta get_id self = Raise e →
       (∃ f cause, f ∈ field_list meta
          ∧ e = ModelSerializingWrappedError self [name f] cause)
       ∨ ∃ what, e = Propagated (FieldException what))
  ∧ (∀ k db, _key self = Some k → k ≠ "" →
       to_db_dict meta self DumpOptions_default = Ok db →
       to_dict meta get_id self
       = Ok (<["key" := VStr k]> (<[(meta_id meta).1 := get_id k]> db), self)).
Proof.
  intros Hok. pose proof (id_name_not_key meta Hok) as Hid.
  unfold to_dict. destruct (meta_id meta) as [id_name id_f]. simpl in *.
  split; [| split].
  - intros d self'.
    destruct (to_db_dict meta self DumpOptions_default) as [db|e]; simpl; [| done].
    destruct (key meta self) as [[k1 s1]|e] eqn:Hk1; simpl; [| done].
    destruct (key meta s1) as [[k2 s2]|e] eqn:Hk2; simpl; [| done].
    intros [= <- <-]. exists db, k1, s1, k2.
    split; [done | split; [done | split; [done |]]].
    split; [by rewrite lookup_insert_eq |].
    split; [by rewrite lookup_insert_ne, lookup_insert_eq |].
    intros c Hc Hc'. by rewrite !lookup_insert_ne.
  - intros e.
    destruct (to_db_dict meta self DumpOptions_default) as [db|e'] eqn:Hdb; simpl.
    + destruct (key meta self) as [[k1 s1]|e'] eqn:Hk1; simpl.
      * destruct (key meta s1) as [[k2 s2]|e'] eqn:Hk2; simpl; [done |].
        intros [= <-]. right. by eapply key_raises_exception.
      * intros [= <-]. right. by eapply key_raises_exception.
    + intros [= <-]. left. by eapply to_db_dict_raises_wrapped.
  - intros k db Hk Hne ->. simpl.
    rewrite (key_cached meta self k Hk Hne). simpl.
    by rewrite (key_cached meta self k Hk Hne).
Qed.

(** Instances of the parameters [get_id] and [get_parent_doc] for the
    examples: the last segment of a key, and the key without its last two
    segments. *)
Fixpoint segments (k : string) : list string :=
  match k with
  | EmptyString => [""]
  | String c rest =>
      if Ascii.eqb c "/" then "" :: segments rest
      else
        match segments rest with
        | s :: l => String c s :: l
        | [] => [String c ""]
        end
  end.

Definition last_segment (k : string) : value := VStr (List.last (segments k) "").

Definition parent_segments (k : string) : string :=
  join (List.removelast (List.removelast (segments k))).

Lemma to_dict_entries_witness :
  to_dict User last_segment saved_user
  = Ok ({["id" := VStr "u1"; "key" := VStr "users/u1"; "name" := VStr "Azeem"]},
        saved_user).
Proof.
  destruct (to_dict_entries User last_segment saved_user User_ok) as (_ & _ & H).
  rewrite (H "users/u1" {["name" := VStr "Azeem"]} eq_refl);
    [| discriminate | vm_compute; reflexivity].
  vm_compute. reflexivity.
Defined.

(** X6. Setting the identifier to a non-empty string writes the attribute
    and caches the key [parent/collection_name/id] without its leading
    separator, which [key] then returns.  Setting it to a false value ([None],
    the empty string) writes the attribute and leaves the cached key as it was.
    A true value that is not a string raises [TypeError]. *)
Theorem _id_setter_spec (meta : Meta) (self : Instance) (doc_id : value) :
  Meta_ok meta →
  (∀ d, doc_id = VStr d → d ≠ "" →
     ∃ self', _id_setter meta self doc_id = Ok self'
       ∧ getattr self' (meta_id meta).1 = VStr d
       ∧ _key self' =
           Some (strip_leading_sep (join [parent self; collection_name meta; d]))
       ∧ key meta self' =
           Ok (strip_leading_sep (join [parent self; collection_name meta; d]), self'))
  ∧ (truthy doc_id = false →
     _id_setter meta self doc_id = Ok (__setattr__ meta self (meta_id meta).1 doc_id)
     ∧ _key (__setattr__ meta self (meta_id meta).1 doc_id) = _key self)
  ∧ (truthy doc_id = true → (∀ d, doc_id ≠ VStr d) →
     _id_setter meta self doc_id = Raise TypeError).
Proof.
  intros _. unfold _id_setter. destruct (meta_id meta) as [id_name id_f]. simpl.
  destruct (__setattr___frame meta self id_name doc_id) as (Hp & Hk & _ & Ha & _).
  split; [| split].
  - intros d -> Hd.
    assert (truthy (VStr d) = true) as -> by (simpl; by apply negb_true_iff, String.eqb_neq).
    unfold _set_key. rewrite Hp. eexists. split; [reflexivity |].
    split; [| split; [done |]].
    + unfold getattr, set__key. cbn [attrs]. by rewrite Ha, lookup_insert_eq.
    + apply key_cached; [done | apply strip_join_nonempty].
  - intros ->. done.
  - intros -> Hns. unfold _set_key. destruct doc_id; try done. by destruct (Hns s).
Qed.

Lemma _id_setter_spec_witness :
  ∃ self', _id_setter User unsaved (VStr "u1") = Ok self'
    ∧ getattr self' "id" = VStr "u1"
    ∧ _key self' = Some "users/u1"
    ∧ key User self' = Ok ("users/u1", self').
Proof.
  exact (proj1 (_id_setter_spec User unsaved (VStr "u1") User_ok) "u1" eq_refl
           ltac:(discriminate)).
Defined.

(** X7. [document_path] is [collection_name/id], prefixed with [parent/]
    for a non-empty parent.  With no cached key and an identifier that resolves
    to a string, [key] returns the same path under an empty parent, and the
    path without one leading separator otherwise.  When the identifier resolves
    to [None], [document_path] raises [TypeError], and a [RequiredField] of the
    identifier descriptor propagates, where [key] returns the placeholder key. *)
Theorem document_path_and_key (meta : Meta) (self : Instance) :
  Meta_ok meta →
  _key self = None ∨ _key self = Some "" →
  (∀ i self', _id meta self = Ok (VStr i, self') →
     (parent self = "" →
      document_path meta self = Ok (collection_name meta +:+ "/" +:+ i, self')
      ∧ key meta self = document_path meta self)
     ∧ (parent self ≠ "" →
        document_path meta self
        = Ok (parent self +:+ "/" +:+ collection_name meta +:+ "/" +:+ i, self')
        ∧ key meta self
          = Ok (strip_leading_sep
                  (parent self +:+ "/" +:+ collection_name meta +:+ "/" +:+ i), self')))
  ∧ (∀ self', _id meta self = Ok (VNone, self') →
       document_path meta self = Raise TypeError
       ∧ ∃ k, key meta self = Ok (k, self'))
  ∧ (_id meta self = Raise (Propagated RequiredField) →
     document_path meta self = Raise (Propagated RequiredField)
     ∧ ∃ k, key meta self = Ok (k, self)).
Proof.
  intros _ Hkey. rewrite (key_uncached meta self Hkey). unfold document_path.
  split; [| split].
  - intros i self' Hid. rewrite (compose_key_resolved _ _ _ _ Hid), Hid. simpl.
    destruct (_id_frame _ _ _ _ Hid) as [-> _]. split.
    + intros ->. simpl. done.
    + intros Hp. apply String.eqb_neq in Hp. by rewrite Hp.
  - intros self' Hid. rewrite (compose_key_absent _ _ _ Hid), Hid. simpl. eauto.
  - intros Hid. rewrite (compose_key_required _ _ Hid), Hid. simpl. eauto.
Qed.

Lemma document_path_and_key_witness :
  document_path User u1_of_a = Ok ("a/users/u1", u1_of_a)
  ∧ key User u1_of_a = Ok ("a/users/u1", u1_of_a)
  ∧ document_path User unsaved = Raise TypeError
  ∧ key User unsaved = Ok ("users/@temp_doc_id", unsaved).
Proof.
  destruct (document_path_and_key User u1_of_a User_ok (or_introl eq_refl))
    as (H & _ & _).
  destruct (H "u1" u1_of_a eq_refl) as [_ H2].
  destruct (H2 ltac:(discriminate)) as [Hd Hk].
  split; [exact Hd | split; [exact Hk |]].
  split; reflexivity.
Defined.

(** X8. [update] with a key that contains the placeholder hands the
    instance on as it is.  With a non-empty key that does not contain it, and
    of which [get_id] is a non-empty string, [update] sets the parent to
    [get_parent_doc] of the key, writes the identifier attribute, and caches
    the key composed of these, which [key] returns from then on; the other
    attributes and the tracked extra fields are as before. *)
Theorem update_with_key (meta : Meta) (get_parent_doc : string → string)
    (get_id : string → value) (self : Instance) (k : string)
    (transaction batch : value) :
  Meta_ok meta →
  k ≠ "" →
  (contains temp_doc_id k = true →
   update meta get_parent_doc get_id self (Some k) transaction batch
   = Ok (Collection_update self transaction batch))
  ∧ (contains temp_doc_id k = false →
     ∀ d, get_id k = VStr d → d ≠ "" →
     ∃ self',
       update meta get_parent_doc get_id self (Some k) transaction batch
       = Ok (Collection_update self' transaction batch)
       ∧ parent self' = get_parent_doc k
       ∧ getattr self' (meta_id meta).1 = VStr d
       ∧ key meta self' =
           Ok (strip_leading_sep (join [get_parent_doc k; collection_name meta; d]),
               self')
       ∧ _extra_fields self' = _extra_fields self
       ∧ ∀ x, x ≠ (meta_id meta).1 → attrs self' !! x = attrs self !! x).
Proof.
  intros _ Hk. unfold update. destruct k as [|c k]; [done |]. split.
  - intros Ht. cbn [mbind result_bind]. by rewrite Ht.
  - intros Ht d Hd Hne. cbn [mbind result_bind]. rewrite Ht. cbn [negb].
    unfold _id_setter. destruct (meta_id meta) as [id_name id_f]. rewrite Hd.
    assert (truthy (VStr d) = true) as ->
      by (simpl; by apply negb_true_iff, String.eqb_neq).
    unfold _set_key.
    destruct (__setattr___frame meta (set_parent self (get_parent_doc (String c k)))
                id_name (VStr d)) as (Hp & _ & Hx & Ha & _).
    rewrite Hp. cbn [mbind result_bind]. eexists. split; [reflexivity |].
    split; [exact Hp |]. split; [| split; [| split; [exact Hx |]]].
    + unfold getattr, set__key. cbn [attrs fst]. by rewrite Ha, lookup_insert_eq.
    + apply key_cached; [done | apply strip_join_nonempty].
    + intros x Hxne. unfold set__key. cbn [attrs fst] in *.
      rewrite Ha. by rewrite lookup_insert_ne.
Qed.

Lemma update_with_key_witness :
  ∃ self',
    update User parent_segments last_segment user_with_extra (Some "a/users/u1")
      VNone VNone
    = Ok (Collection_update self' VNone VNone)
    ∧ parent self' = "a"
    ∧ getattr self' "id" = VStr "u1"
    ∧ key User self' = Ok ("a/users/u1", self')
    ∧ _extra_fields self' = {["nick"]}.
Proof.
  destruct (update_with_key User parent_segments last_segment user_with_extra
              "a/users/u1" VNone VNone User_ok ltac:(discriminate)) as [_ H].
  destruct (H eq_refl "u1" eq_refl ltac:(discriminate))
    as (self' & Hu & Hp & Hi & Hk & Hx & _).
  exists self'. split; [exact Hu | split; [exact Hp | split; [exact Hi |]]].
  split; [exact Hk | exact Hx].
Defined.

(** ** Loading: what [populate_from_doc_dict] leaves in the instance *)

Lemma for_each_app {A S} (f : S → A → res S) l1 l2 s :
  for_each f (l1 ++ l2) s = for_each f l1 s ≫= for_each f l2.
Proof.
  revert s. induction l1 as [|x l1 IHl]; intros s; simpl; [done |].
  destruct (f s x); simpl; [apply IHl | done].
Qed.

(** The loop of [delattr] removes the listed attributes and nothing else. *)
Lemma delattr_loop_inv l self self' :
  for_each delattr l self = Ok self' →
  parent self' = parent self ∧ _key self' = _key self
  ∧ _field_changed self' = _field_changed self
  ∧ _extra_fields self' = _extra_fields self
  ∧ ∀ x, attrs self' !! x = if bool_decide (x ∈ l) then None else attrs self !! x.
Proof.
  revert self. induction l as [|k l IHl]; intros self H; simpl in H.
  - injection H as <-. repeat split; done.
  - destruct (attrs self !! k) as [v|] eqn:Hk.
    + rewrite delattr_present in H by eauto. simpl in H.
      destruct (IHl _ H) as (-> & -> & -> & -> & Ha).
      repeat split; try done. intros x. rewrite Ha. simpl.
      destruct (decide (x = k)) as [-> | Hne].
      * rewrite lookup_delete_eq, (bool_decide_eq_true_2 (k ∈ k :: l)) by left.
        by destruct (bool_decide _).
      * rewrite lookup_delete_ne by done.
        destruct (bool_decide (x ∈ l)) eqn:E.
        -- apply bool_decide_eq_true in E.
           by rewrite bool_decide_eq_true_2 by (by right).
        -- apply bool_decide_eq_false in E.
           rewrite bool_decide_eq_false_2; [done |].
           by intros [? | ?]%elem_of_cons.
    + rewrite delattr_absent in H by done. done.
Qed.

Section Load.

Context (meta : Meta) (set_iter : gset string → list string).
Context (doc_dict : gmap string value) (stored merge by_column_name : bool).

(** The three cases of the body of the main loop. *)
Lemma populate_step_cases self field self' :
  populate_step meta doc_dict stored merge by_column_name self field = Ok self' →
  (field_name_in_dict by_column_name field ∈ dom doc_dict
   ∧ ∃ v,
       field_value field
         (default VNone (doc_dict !! field_name_in_dict by_column_name field))
         (mkLoadOptions self stored merge by_column_name) = Ok v
       ∧ self' = assign meta stored self (name field) v)
  ∨ ((field_name_in_dict by_column_name field ∉ dom doc_dict)
     ∧ merge = false ∧ getattr self (name field) ≠ VNone
     ∧ ∃ v,
         field_value field VNone (mkLoadOptions self stored merge by_column_name) = Ok v
         ∧ self' = assign meta stored self (name field) v)
  ∨ ((field_name_in_dict by_column_name field ∉ dom doc_dict)
     ∧ (merge = true ∨ getattr self (name field) = VNone)
     ∧ self' = self).
Proof.
  unfold populate_step, assign. fold (field_name_in_dict by_column_name field).
  destruct (bool_decide _) eqn:Hin; simpl.
  - apply bool_decide_eq_true in Hin.
    destruct (field_value _ _ _) as [v|e] eqn:Hv; simpl; [| done].
    intros H. left. split; [done |]. exists v. split; [done |].
    by destruct stored; injection H.
  - apply bool_decide_eq_false in Hin.
    assert (default VNone (doc_dict !! field_name_in_dict by_column_name field) = VNone)
      as -> by (apply not_elem_of_dom in Hin; by rewrite Hin).
    destruct merge; simpl.
    + intros [= <-]. right. right. eauto.
    + destruct (getattr self (name field)) eqn:Hg; simpl;
        try (intros [= <-]; right; right; by eauto);
        (destruct (field_value _ _ _) as [v|e] eqn:Hv; simpl; [| done]);
        intros H; right; left;
        (split; [done | split; [done | split; [done |]]]);
        exists v; (split; [done |]); by destruct stored; injection H.
Qed.

(** The main loop leaves alone what no field of the list is named like. *)
Lemma populate_loop_other l self self' x :
  for_each (populate_step meta doc_dict stored merge by_column_name) l self = Ok self' →
  (∀ g, g ∈ l → name g ≠ x) →
  attrs self' !! x = attrs self !! x
  ∧ (x ∈ _field_changed self' ↔ x ∈ _field_changed self)
  ∧ (x ∈ _extra_fields self' ↔ x ∈ _extra_fields self).
Proof.
  revert self. induction l as [|g l IHl]; intros self H Hx; simpl in H.
  - by injection H as <-.
  - destruct (populate_step _ _ _ _ _ self g) as [s1|e] eqn:Hs; simpl in H; [| done].
    destruct (IHl _ H) as (Ha & Hc & He); [intros h Hh; apply Hx; by right |].
    rewrite Ha, Hc, He. clear Ha Hc He.
    assert (name g ≠ x) as Hg by (apply Hx; left).
    apply populate_step_inv in Hs as [[-> _] | (v & -> & _)]; [done |].
    rewrite assign_attrs, assign_field_changed, assign_extra_fields.
    rewrite lookup_insert_ne by done. split; [done |].
    split; [destruct (negb stored && _) | destruct (stored && _ && _)]; set_solver.
Qed.

End Load.

(** A declared field that no resolved extra field is named like is assigned
    by one step of the main loop, in an instance in which it still has the
    value it had, and is not touched after that step. *)
Lemma populate_declared_field meta set_iter doc_dict stored merge by_column_name
    self self' f :
  Meta_ok meta → iterates_sets set_iter →
  populate_from_doc_dict meta set_iter self doc_dict stored merge by_column_name
  = Ok self' →
  f ∈ field_list meta →
  (∀ g, g ∈ omap (get_field_by_column_name meta)
              (set_iter (unknown_fields meta doc_dict)) → name g ≠ name f) →
  ∃ sa sb,
    attrs sa !! name f = attrs self !! name f
    ∧ populate_step meta doc_dict stored merge by_column_name sa f = Ok sb
    ∧ attrs self' !! name f = attrs sb !! name f
    ∧ (negb merge && stored = false →
       (name f ∈ _field_changed self' ↔ name f ∈ _field_changed sb)).
Proof.
  intros Hok Hiter H Hin Hextra.
  apply populate_from_doc_dict_inv in H as (s1 & s2 & Hfirst & _ & Hloop & ->).
  assert (attrs s1 !! name f = attrs self !! name f) as Hs1.
  { destruct merge; [by subst |]. destruct Hfirst as (s0 & Hdel & ->). simpl.
    destruct (delattr_loop_inv _ _ _ Hdel) as (_ & _ & _ & _ & Ha). rewrite Ha.
    rewrite bool_decide_eq_false_2; [done |].
    intros Hl. apply (iterates_sets_elem _ _ _ Hiter) in Hl.
    apply elem_of_difference in Hl as [_ Hl]. apply Hl.
    unfold declared_names. apply elem_of_list_to_set. by apply list_elem_of_fmap_2. }
  apply list_elem_of_split in Hin as (l1 & l2 & Hl).
  pose proof (names_distinct _ Hok) as Hnd. rewrite Hl in Hnd.
  rewrite fmap_app, fmap_cons in Hnd.
  apply NoDup_app in Hnd as (_ & Hl1 & [Hl2 _]%NoDup_cons).
  unfold load_chain in Hloop. rewrite Hl, <- app_assoc, for_each_app in Hloop.
  destruct (for_each _ l1 s1) as [sa|e] eqn:Hla; simpl in Hloop; [| done].
  destruct (populate_step _ _ _ _ _ sa f) as [sb|e] eqn:Hstep; simpl in Hloop; [| done].
  exists sa, sb.
  destruct (populate_loop_other _ _ _ _ _ _ _ _ (name f) Hla) as (Ha & _ & _).
  { intros g Hg E. apply (Hl1 (name f)); [| left].
    rewrite <- E. by apply list_elem_of_fmap_2. }
  destruct (populate_loop_other _ _ _ _ _ _ _ _ (name f) Hloop) as (Hb & Hc & _).
  { intros g [Hg | Hg]%elem_of_app E; [| by apply (Hextra g)].
    apply Hl2. rewrite <- E. by apply list_elem_of_fmap_2. }
  split; [by rewrite Ha, Hs1 |]. split; [done |].
  split; [by destruct (negb merge && stored) |].
  by intros ->.
Qed.


Lemma no_unknown_no_extra meta set_iter doc_dict :
  iterates_sets set_iter → unknown_fields meta doc_dict = ∅ →
  omap (get_field_by_column_name meta) (set_iter (unknown_fields meta doc_dict)) = [].
Proof.
  intros Hiter ->. pose proof (Hiter ∅) as H. rewrite elements_empty in H.
  apply Permutation_nil_r in H. by rewrite H.
Qed.




(** X10. Load then dump.  After a load by attribute name that is not a
    stored one (as [from_dict] and [merge_with_dict] do it), [to_db_dict]
    returns, under the column of every declared field that is in the document
    and is not a skipped identifier field, the encoding of the decoded entry,
    whatever the dump options, provided the columns are distinct. *)
Theorem load_then_dump (meta : Meta) (set_iter : gset string → list string)
    (self : Instance) (doc_dict : gmap string value) (merge : bool) (self' : Instance)
    (dump_options : DumpOptions) (result : gmap string value) (f : Field) (raw : value) :
  Meta_ok meta → iterates_sets set_iter →
  NoDup (db_column_name <$> field_list meta) →
  populate_from_doc_dict meta set_iter self doc_dict false merge false = Ok self' →
  to_db_dict meta self' dump_options = Ok result →
  f ∈ field_list meta →
  is_IDField f && negb (include_in_document_of f) = false →
  doc_dict !! name f = Some raw →
  ∃ s v w,
    field_value f raw (mkLoadOptions s false merge false) = Ok v
    ∧ get_value f v dump_options = Ok w
    ∧ result !! db_column_name f = Some w.
Proof.
  intros Hok Hiter Hcols Hload Hdump Hin Hid Hraw.
  assert (unknown_fields meta doc_dict = ∅) as Hu.
  { apply populate_from_doc_dict_inv in Hload as (_ & _ & _ & [? | Hu] & _); done. }
  destruct (populate_declared_field _ _ _ _ _ _ _ _ f Hok Hiter Hload Hin)
    as (sa & sb & _ & Hstep & Ha & Hc).
  { rewrite (no_unknown_no_extra _ _ _ Hiter Hu). intros g Hg.
    by apply elem_of_nil in Hg. }
  apply populate_step_cases in Hstep
    as [(_ & v & Hv & ->) | [(Hd & _) | (Hd & _)]];
    [| by apply not_elem_of_dom in Hd; simpl in Hd; rewrite Hraw in Hd
     | by apply not_elem_of_dom in Hd; simpl in Hd; rewrite Hraw in Hd].
  simpl in Hv. rewrite Hraw in Hv. simpl in Hv.
  rewrite assign_attrs, lookup_insert_eq in Ha.
  assert (name f ∈ _field_changed self') as Hchanged.
  { apply Hc; [apply andb_false_r |].
    rewrite assign_field_changed, (declared_field meta f Hin). set_solver. }
  unfold to_db_dict in Hdump.
  destruct (to_db_dict_loop_ok _ _ _ _ _ _ _ Hdump Hin) as [o Ho].
  rewrite (to_db_dict_loop_exact _ _ _ _ _ _ _ _ Hdump Hcols Hin Ho).
  unfold dump_field, _is_field_unchanged in Ho. rewrite Hid in Ho.
  rewrite bool_decide_eq_true_2 in Ho by done. simpl in Ho.
  rewrite andb_false_r in Ho.
  assert (getattr self' (name f) = v) as Hg by (unfold getattr; by rewrite Ha).
  rewrite Hg in Ho. destruct (get_value f v dump_options) as [w|e] eqn:Hw; [| done].
  rewrite orb_true_r in Ho. injection Ho as <-.
  exists sa, v, w. split; [exact Hv | split; [exact Hw | reflexivity]].
Qed.

Definition assigned_user : Instance :=
  mkInstance "" None {["name" := VStr "Azeem"]} {["name"]} ∅.

Lemma load_then_dump_witness :
  populate_from_doc_dict User elements unsaved azeem_doc false false false
  = Ok assigned_user
  ∧ to_db_dict User assigned_user (mkDumpOptions true true) = Ok azeem_doc
  ∧ ∃ s v w,
      field_value name_field (VStr "Azeem") (mkLoadOptions s false false false) = Ok v
      ∧ get_value name_field v (mkDumpOptions true true) = Ok w
      ∧ azeem_doc !! "name" = Some w.
Proof.
  assert (populate_from_doc_dict User elements unsaved azeem_doc false false false
          = Ok assigned_user) as H by (vm_compute; reflexivity).
  assert (to_db_dict User assigned_user (mkDumpOptions true true) = Ok azeem_doc) as H'
    by (vm_compute; reflexivity).
  split; [exact H | split; [exact H' |]].
  apply (load_then_dump User elements unsaved azeem_doc false assigned_user
           (mkDumpOptions true true) azeem_doc name_field (VStr "Azeem")
           User_ok iterates_sets_elements);
    [| exact H | exact H' | right; left | reflexivity | reflexivity].
  apply (bool_decide_unpack _). vm_compute. exact I.
Defined.

(** ** Extra fields *)




(** The tracked extra fields after the main loop come from before it or
    from a field the loop assigned on a stored load. *)
Lemma populate_loop_extras_origin meta doc_dict stored merge by_column_name l self self' x :
  for_each (populate_step meta doc_dict stored merge by_column_name) l self = Ok self' →
  x ∈ _extra_fields self' →
  x ∈ _extra_fields self
  ∨ (stored = true ∧ declared meta x = false ∧ ∃ f, f ∈ l ∧ name f = x).
Proof.
  revert self. induction l as [|g l IHl]; intros self H Hx; simpl in H.
  - injection H as <-. by left.
  - destruct (populate_step _ _ _ _ _ self g) as [s1|e] eqn:Hs; simpl in H; [| done].
    destruct (IHl _ H Hx) as [Hx1 | (Hst & Hd & f & Hf & Hn)].
    + apply populate_step_inv in Hs as [[-> _] | (v & -> & _)]; [by left |].
      rewrite assign_extra_fields in Hx1.
      destruct stored; simpl in Hx1; [| by left].
      destruct (String.eqb (name g) "_id"); simpl in Hx1; [by left |].
      destruct (declared meta (name g)) eqn:Hdecl; simpl in Hx1; [by left |].
      apply elem_of_union in Hx1 as [->%elem_of_singleton | Hx1]; [| by left].
      right. split; [done | split; [done |]]. exists g. split; [left | done].
    + right. split; [done | split; [done |]]. exists f. split; [by right | done].
Qed.

Lemma init_loop_extra_fields meta kwargs l self self' :
  for_each (init_nested_step meta kwargs) l self = Ok self' →
  _extra_fields self' = _extra_fields self.
Proof.
  revert self. induction l as [|g l IHl]; intros self H; simpl in H.
  - by injection H as <-.
  - destruct (init_nested_step meta kwargs self g) as [s1|e] eqn:Hs; simpl in H; [| done].
    rewrite (IHl _ H).
    apply init_nested_step_inv in Hs as [-> | [v ->]]; [done |].
    by destruct (__setattr___frame meta self (name g) v) as (_ & _ & -> & _).
Qed.

Lemma kwargs_loop_extra_fields meta (kwargs : list (string * value)) self :
  _extra_fields (foldl (λ s kv, __setattr__ meta s kv.1 kv.2) self kwargs)
  = _extra_fields self.
Proof.
  revert self. induction kwargs as [|[k v] l IHl]; intros self; simpl; [done |].
  rewrite IHl. by destruct (__setattr___frame meta self k v) as (_ & _ & -> & _).
Qed.



(** X12. A replacing load ([merge=False]) tracks as extra fields only
    fields it resolved for this document, on a stored load, and none
    otherwise; an extra field tracked before that no field loaded now is named
    like is no longer an attribute of the instance. *)
Theorem replace_drops_extra_fields (meta : Meta) (set_iter : gset string → list string)
    (self : Instance) (doc_dict : gmap string value) (stored by_column_name : bool)
    (self' : Instance) :
  Meta_ok meta → iterates_sets set_iter →
  populate_from_doc_dict meta set_iter self doc_dict stored false by_column_name
  = Ok self' →
  (∀ x, x ∈ _extra_fields self' →
     stored = true ∧ declared meta x = false
     ∧ ∃ f, f ∈ load_chain meta set_iter doc_dict ∧ name f = x)
  ∧ (stored = false → _extra_fields self' = ∅)
  ∧ (∀ x, x ∈ _extra_fields self → declared meta x = false →
       (∀ f, f ∈ load_chain meta set_iter doc_dict → name f ≠ x) →
       attrs self' !! x = None).
Proof.
  intros _ Hiter H.
  apply populate_from_doc_dict_inv in H as (s1 & s2 & (s0 & Hdel & ->) & _ & Hloop & ->).
  assert (∀ x, x ∈ _extra_fields s2 →
     stored = true ∧ declared meta x = false
     ∧ ∃ f, f ∈ load_chain meta set_iter doc_dict ∧ name f = x) as Horigin.
  { intros x Hx.
    destruct (populate_loop_extras_origin _ _ _ _ _ _ _ _ x Hloop Hx) as [Hx0 | Hx0];
      [simpl in Hx0; set_solver | done]. }
  split; [| split].
  - intros x Hx. apply Horigin. by destruct stored.
  - intros Hst. apply set_eq. intros x. split; [| set_solver].
    intros Hx. assert (x ∈ _extra_fields s2) as Hx2 by (by destruct stored).
    destruct (Horigin x Hx2) as [Hst' _]. congruence.
  - intros x Hx Hdecl Hfresh.
    assert (attrs s2 !! x = None) as Hs2.
    { destruct (populate_loop_other _ _ _ _ _ _ _ _ x Hloop Hfresh) as (-> & _).
      simpl. destruct (delattr_loop_inv _ _ _ Hdel) as (_ & _ & _ & _ & Ha).
      rewrite Ha, bool_decide_eq_true_2; [done |].
      apply (iterates_sets_elem _ _ _ Hiter). apply elem_of_difference.
      split; [done |]. unfold declared_names. rewrite elem_of_list_to_set.
      by apply declared_false_not_name. }
    by destruct stored.
Qed.

Example replace_user_with_extra :
  populate_from_doc_dict User elements user_with_extra azeem_doc true false true
  = Ok stored_user.
Proof. vm_compute. reflexivity. Qed.

Lemma replace_drops_extra_fields_witness :
  populate_from_doc_dict User elements user_with_extra azeem_doc true false true
  = Ok stored_user
  ∧ attrs user_with_extra !! "nick" = Some (VStr "az")
  ∧ attrs stored_user !! "nick" = None.
Proof.
  split; [exact replace_user_with_extra | split; [reflexivity |]].
  destruct (replace_drops_extra_fields User elements user_with_extra azeem_doc true true
              stored_user User_ok iterates_sets_elements replace_user_with_extra)
    as (_ & _ & Hdrop).
  apply (Hdrop "nick"); [vm_compute; reflexivity | reflexivity |].
  assert (load_chain User elements azeem_doc = [id_field; name_field]) as ->
    by (vm_compute; reflexivity).
  intros f Hf.
  repeat (apply elem_of_cons in Hf as [-> | Hf]; [discriminate |]).
  by apply elem_of_nil in Hf.
Defined.

(** ** Construction: errors and the state of a new instance *)


Lemma unexpected_kwargs_empty meta (kwargs : list (string * value)) :
  list_to_set kwargs.*1 ∖ declared_names meta = (∅ : gset string)
  ↔ ∀ k, k ∈ kwargs.*1 → declared meta k = true.
Proof.
  unfold declared_names, declared. split.
  - intros H k Hk. apply bool_decide_eq_true.
    destruct (decide (k ∈ name <$> field_list meta)) as [|Hn]; [done |].
    assert (k ∈ (∅ : gset string)) as Hempty; [| set_solver].
    rewrite <- H. apply elem_of_difference.
    split; [by apply elem_of_list_to_set | by rewrite elem_of_list_to_set].
  - intros H. apply set_eq. intros k. split; [| set_solver].
    intros [Hk Hn]%elem_of_difference. exfalso. apply Hn.
    apply elem_of_list_to_set in Hk. apply H in Hk.
    apply elem_of_list_to_set. by apply bool_decide_eq_true in Hk.
Qed.


Example construction_errors_example :
  __init__ User [VStr "Azeem"] "" [] = Raise AttributeError
  ∧ __init__ User [] "" [("age", VNum 25)] = Raise AttributeError
  ∧ __init__ (mkMeta [id_field; name_field] ("id", id_field) true "users" adhoc_registry)
      [] "" [("name", VStr "Azeem")] = Raise AbstractNotInstantiate.
Proof. repeat split; vm_compute; reflexivity. Qed.

Section InitState.

Context (meta : Meta).

(** The first loop of [__init__], over keywords that are declared fields. *)
Lemma kwargs_loop_state (kwargs : list (string * value)) self :
  (∀ k, k ∈ kwargs.*1 → declared meta k = true) →
  let self' := foldl (λ s kv, __setattr__ meta s kv.1 kv.2) self kwargs in
  parent self' = parent self ∧ _key self' = _key self
  ∧ _field_changed self' = list_to_set kwargs.*1 ∪ _field_changed self
  ∧ dom (attrs self') = list_to_set kwargs.*1 ∪ dom (attrs self)
  ∧ (∀ x, x ∉ kwargs.*1 → attrs self' !! x = attrs self !! x).
Proof.
  revert self. induction kwargs as [|[k v] l IHl]; intros self Hdecl; simpl.
  - repeat split; set_solver.
  - destruct (IHl (__setattr__ meta self k v)) as (-> & -> & -> & -> & Ha).
    { intros k' Hk'. apply Hdecl. simpl. by right. }
    destruct (__setattr___frame meta self k v) as (-> & -> & _ & Hattrs & ->).
    rewrite (Hdecl k) by (simpl; left). rewrite Hattrs.
    split; [done | split; [done | split; [set_solver | split]]].
    + rewrite dom_insert_L. set_solver.
    + intros x [Hx Hl]%not_elem_of_cons. rewrite (Ha x Hl), Hattrs.
      by rewrite lookup_insert_ne.
Qed.

Lemma kwargs_loop_value (kwargs : list (string * value)) self k v :
  (∀ k, k ∈ kwargs.*1 → declared meta k = true) →
  NoDup kwargs.*1 → (k, v) ∈ kwargs →
  attrs (foldl (λ s kv, __setattr__ meta s kv.1 kv.2) self kwargs) !! k = Some v.
Proof.
  revert self. induction kwargs as [|[k' v'] l IHl]; intros self Hdecl Hnd Hin.
  - by apply elem_of_nil in Hin.
  - simpl in *. apply NoDup_cons in Hnd as [Hk' Hnd].
    assert (∀ k0, k0 ∈ l.*1 → declared meta k0 = true) as Hdecl'
      by (intros k0 Hk0; apply Hdecl; by right).
    apply elem_of_cons in Hin as [[= -> ->] | Hin]; [| by apply IHl].
    destruct (kwargs_loop_state l (__setattr__ meta self k' v') Hdecl')
      as (_ & _ & _ & _ & Ha).
    rewrite (Ha k' Hk').
    destruct (__setattr___frame meta self k' v') as (_ & _ & _ & -> & _).
    by rewrite lookup_insert_eq.
Qed.

(** The second loop of [__init__]. *)
Lemma init_loop_state kwargs l self self' :
  for_each (init_nested_step meta kwargs) l self = Ok self' →
  (∀ f, f ∈ l → declared meta (name f) = true) →
  parent self' = parent self ∧ _key self' = _key self
  ∧ (∀ k, k ∈ _field_changed self' →
       k ∈ _field_changed self
       ∨ ∃ f, f ∈ l ∧ is_NestedModelField f = true ∧ name f = k)
  ∧ (dom (attrs self) = _field_changed self → dom (attrs self') = _field_changed self')
  ∧ (∀ x, (∀ f, f ∈ l → name f = x → is_NestedModelField f = false) →
       attrs self' !! x = attrs self !! x).
Proof.
  revert self. induction l as [|g l IHl]; intros self H Hdecl; simpl in H.
  - injection H as <-. repeat split; eauto.
  - destruct (init_nested_step meta kwargs self g) as [s1|e] eqn:Hs; simpl in H; [| done].
    destruct (IHl _ H) as (-> & -> & Hc & Hd & Ha);
      [intros f Hf; apply Hdecl; by right |].
    assert (s1 = self
            ∨ (is_NestedModelField g = true ∧ ∃ v, s1 = __setattr__ meta self (name g) v))
      as [-> | (Hg & v & ->)].
    { destruct (is_NestedModelField g) eqn:Hg.
      - apply init_nested_step_inv in Hs as [-> | Hv]; [by left | by right].
      - unfold init_nested_step in Hs. rewrite Hg in Hs. left. congruence. }
    + split; [done | split; [done | split; [| split; [done |]]]].
      * intros k Hk. destruct (Hc k Hk) as [? | (f & Hf & Hn & Hname)]; [by left |].
        right. exists f. split; [by right | done].
      * intros x Hx. apply Ha. intros f Hf. apply Hx. by right.
    + destruct (__setattr___frame meta self (name g) v) as (-> & -> & _ & Hattrs & Hch).
      rewrite (Hdecl g) in Hch by left.
      split; [done | split; [done | split; [| split]]].
      * intros k Hk. destruct (Hc k Hk) as [Hk1 | (f & Hf & Hn & Hname)].
        -- rewrite Hch in Hk1. apply elem_of_union in Hk1 as [->%elem_of_singleton | ?];
             [| by left].
           right. exists g. split; [left | done].
        -- right. exists f. split; [by right | done].
      * intros Hdom. apply Hd. rewrite Hattrs, Hch, dom_insert_L. by rewrite Hdom.
      * intros x Hx. rewrite Ha by (intros f Hf; apply Hx; by right).
        rewrite Hattrs. apply lookup_insert_ne. intros E.
        rewrite (Hx g) in Hg; [done | left | done].
Qed.

End InitState.

(** X14. The instance [__init__] returns has the given parent, no cached
    key and no tracked extra field.  Its [_field_changed] holds the keywords
    that were passed and the names of the nested model fields, and nothing
    else, and these are exactly the attributes that are set.  A keyword that is
    not the name of a nested model field holds the value that was passed. *)
Theorem init_state (meta : Meta) (p : string) (kwargs : list (string * value))
    (self : Instance) :
  Meta_ok meta →
  __init__ meta [] p kwargs = Ok self →
  parent self = p ∧ _key self = None ∧ _extra_fields self = ∅
  ∧ (∀ k, k ∈ _field_changed self ↔
       k ∈ kwargs.*1
       ∨ ∃ f, f ∈ field_list meta ∧ is_NestedModelField f = true ∧ name f = k)
  ∧ dom (attrs self) = _field_changed self
  ∧ (NoDup kwargs.*1 → ∀ k v, (k, v) ∈ kwargs →
       (∀ f, f ∈ field_list meta → name f = k → is_NestedModelField f = false) →
       attrs self !! k = Some v).
Proof.
  intros Hok. unfold __init__.
  destruct (bool_decide _) eqn:Hb; simpl; [| done].
  apply bool_decide_eq_true in Hb.
  pose proof (proj1 (unexpected_kwargs_empty meta kwargs) Hb) as Hkw.
  destruct (abstract meta); [done |]. intros Hloop.
  set (s0 := foldl (λ s kv, __setattr__ meta s kv.1 kv.2) (mkInstance p None ∅ ∅ ∅) kwargs)
    in *.
  destruct (kwargs_loop_state meta kwargs (mkInstance p None ∅ ∅ ∅) Hkw)
    as (Hp0 & Hk0 & Hc0 & Hd0 & _).
  fold s0 in Hp0, Hk0, Hc0, Hd0. simpl in Hp0, Hk0, Hc0, Hd0.
  destruct (init_loop_state meta kwargs _ _ _ Hloop) as (Hp & Hk & Hc & Hd & Ha);
    [intros f Hf; by apply declared_field |].
  destruct (init_loop_keeps _ _ _ _ _ Hloop) as [Hmono _].
  split; [by rewrite Hp | split; [by rewrite Hk |]].
  split; [rewrite (init_loop_extra_fields _ _ _ _ _ Hloop); unfold s0;
          by rewrite (kwargs_loop_extra_fields meta kwargs) |].
  split; [| split].
  - intros k. split.
    + intros Hk'. destruct (Hc k Hk') as [Hk0' | ?]; [| by right].
      left. rewrite Hc0 in Hk0'. set_solver.
    + intros [Hk' | (f & Hf & Hn & <-)].
      * apply Hmono. rewrite Hc0. set_solver.
      * destruct (decide (name f ∈ kwargs.*1)) as [Hin | Hnin].
        -- apply Hmono. rewrite Hc0. set_solver.
        -- destruct (init_loop_missing meta kwargs _ _ _ f Hloop) as (_ & _ & _ & ?);
             [apply Hok | done | by apply declared_field | done | done | done].
  - apply Hd. rewrite Hd0, Hc0. set_solver.
  - intros Hnd k v Hin Hplain. rewrite (Ha k Hplain).
    by apply kwargs_loop_value.
Qed.

Definition new_account : Instance :=
  mkInstance "a" None
    {["name" := VStr "Azeem"; "profile" := VObject "instance of profile"]}
    {["name"; "profile"]} ∅.

Example init_account :
  __init__ Account [] "a" [("name", VStr "Azeem")] = Ok new_account.
Proof. vm_compute. reflexivity. Qed.

Lemma init_state_witness :
  __init__ Account [] "a" [("name", VStr "Azeem")] = Ok new_account
  ∧ parent new_account = "a" ∧ _key new_account = None
  ∧ dom (attrs new_account) = _field_changed new_account
  ∧ attrs new_account !! "name" = Some (VStr "Azeem").
Proof.
  destruct (init_state Account "a" [("name", VStr "Azeem")] new_account Account_ok
              init_account) as (Hp & Hk & _ & _ & Hd & Hv).
  split; [exact init_account | split; [exact Hp | split; [exact Hk | split; [exact Hd |]]]].
  apply Hv; [apply (bool_decide_unpack _); vm_compute; exact I | left |].
  intros f Hf Hn. cbn in Hf.
  repeat (apply elem_of_cons in Hf as [-> | Hf]; [first [reflexivity | discriminate Hn] |]).
  by apply elem_of_nil in Hf.
Defined.

(** ** Edge cases *)

Lemma lookup_field_undeclared meta k :
  declared meta k = false → lookup_field meta k = None.
Proof.
  intros Hk. apply declared_false_not_name in Hk.
  unfold lookup_field. destruct (find _ _) as [f|] eqn:Hf; [| done].
  apply find_some in Hf as [Hin E]. apply String.eqb_eq in E. subst k.
  exfalso. apply Hk. apply list_elem_of_fmap_2. by apply list_elem_of_In.
Qed.

(** X15. For a name that is not a declared field, [_is_field_unchanged]
    raises [KeyError], unless the name is in [_field_changed], in which case it
    returns true without looking the field up. *)
Theorem _is_field_unchanged_undeclared (meta : Meta) (self : Instance)
    (field_name : string) :
  declared meta field_name = false →
  _is_field_unchanged meta self field_name =
    if bool_decide (field_name ∈ _field_changed self) then Ok true
    else Raise (KeyError field_name).
Proof.
  intros Hk. unfold _is_field_unchanged.
  by rewrite (lookup_field_undeclared meta field_name Hk).
Qed.

Lemma _is_field_unchanged_undeclared_witness :
  _is_field_unchanged User user_with_extra "nick" = Raise (KeyError "nick").
Proof.
  exact (_is_field_unchanged_undeclared User user_with_extra "nick" eq_refl).
Defined.

(** X16. A merge of the empty document changes nothing and does not raise,
    whatever the other arguments. *)
Theorem merge_empty_doc (meta : Meta) (set_iter : gset string → list string)
    (self : Instance) (stored by_column_name : bool) :
  populate_from_doc_dict meta set_iter self ∅ stored true by_column_name = Ok self.
Proof.
  rewrite populate_from_doc_dict_stages. unfold drop_extra_fields.
  cbn [negb mbind result_bind].
  assert (unknown_fields meta ∅ = ∅) as Hu by (unfold unknown_fields; set_solver).
  rewrite bool_decide_eq_true_2 by done. cbn [negb andb].
  assert (∀ s f, populate_step meta ∅ stored true by_column_name s f = Ok s) as Hstep.
  { intros s f. unfold populate_step.
    by rewrite bool_decide_eq_false_2 by set_solver. }
  assert (∀ l s, for_each (populate_step meta ∅ stored true by_column_name) l s = Ok s)
    as Hloop.
  { induction l as [|f l IHl]; intros s; [done |].
    cbn [for_each]. rewrite Hstep. apply IHl. }
  by rewrite Hloop.
Qed.
